(** * AutoRange: the prediction engine of the stats collector

    A shallow embedding of [daemon/stats] (the autorange watcher) and the
    properties of its bounded series, memory bracket, extreme tracking,
    weighting, averaging, limit computation, retry loop and watcher ticks.

    Go's [int] and [uint64] are 64 bits wide on the platforms the daemon is
    built for; they are modelled as [Z] with the wrap-around written out.
    [float64] and [float32] are modelled by the IEEE-754 specification of the
    Standard Library ([spec_float], precision 53 and 24), each operation
    rounded on its own as on amd64.  A run-time panic (integer division by
    zero, index or slice bound out of range, a negative size given to
    [make]) is [None].

    The series are modelled by their contents (lists); the one place where
    the source depends on what a slice is, the call of [fifoFloat] whose
    result [startRoutine] drops, is modelled on slices and backing arrays
    ([GoSlice]).  Channels, timers and the context of [Watch] are outside the
    model: a tick is one iteration of its loop on an accepted sample. *)

From Stdlib Require Import ZArith Lia Bool List Ascii String.
From Stdlib Require Import Floats.SpecFloat.
From stdpp Require Import base option list strings pretty gmap.

Local Open Scope Z_scope.

(** ** Machine integers *)

Module GoInt.

Definition two63 : Z := 2 ^ 63.
Definition two64 : Z := 2 ^ 64.

Definition minInt : Z := - two63.
Definition maxInt : Z := two63 - 1.

(** Two's complement reduction to [int] (and [int64]). *)
Definition wrap (z : Z) : Z := (z + two63) mod two64 - two63.

(** Reduction to [uint64]. *)
Definition uwrap (z : Z) : Z := z mod two64.

Definition in_int (z : Z) : Prop := minInt <= z <= maxInt.

Definition add (a b : Z) : Z := wrap (a + b).
Definition sub (a b : Z) : Z := wrap (a - b).
Definition mul (a b : Z) : Z := wrap (a * b).

(** [a / b] on signed operands truncates toward zero; the only overflow is
    [minInt / -1], which wraps. The divisor is nonzero at every use. *)
Definition quot (a b : Z) : Z := wrap (Z.quot a b).

Definition uadd (a b : Z) : Z := uwrap (a + b).
Definition umul (a b : Z) : Z := uwrap (a * b).

(** Unsigned division; [None] is the run-time panic on a zero divisor. *)
Definition udiv (a b : Z) : option Z :=
  if b =? 0 then None else Some (a / b).

(** Conversions [int(x)] of a [uint64] and [uint64(x)] of an [int]. *)
Definition to_int (u : Z) : Z := wrap u.
Definition to_uint64 (i : Z) : Z := uwrap i.

End GoInt.

(** ** Floating point *)

Module GoFloat.

(** Both float types are values of the specification; they differ by the
    precision of the operations. *)
Abbreviation float64 := spec_float (only parsing).
Abbreviation float32 := spec_float (only parsing).

Definition prec64 : Z := 53.
Definition emax64 : Z := 1024.
Definition prec32 : Z := 24.
Definition emax32 : Z := 128.

Definition NaN : spec_float := S754_nan.
Definition PInf : spec_float := S754_infinity false.
Definition NInf : spec_float := S754_infinity true.
Definition zero : spec_float := S754_zero false.

(** [float64(z)] of an integer, rounded to nearest even. *)
Definition f64_of_Z (z : Z) : float64 := binary_normalize prec64 emax64 z 0 false.
Definition f32_of_Z (z : Z) : float32 := binary_normalize prec32 emax32 z 0 false.

Definition f64_add : float64 -> float64 -> float64 := SFadd prec64 emax64.
Definition f64_sub : float64 -> float64 -> float64 := SFsub prec64 emax64.
Definition f64_mul : float64 -> float64 -> float64 := SFmul prec64 emax64.
Definition f64_div : float64 -> float64 -> float64 := SFdiv prec64 emax64.
Definition f32_div : float32 -> float32 -> float32 := SFdiv prec32 emax32.

(** [math.IsNaN] and [math.IsInf(f, 1)]. *)
Definition IsNaN (f : spec_float) : bool :=
  match f with S754_nan => true | _ => false end.

Definition IsPInf (f : spec_float) : bool :=
  match f with S754_infinity false => true | _ => false end.

(** The integer part of a float, toward zero; [None] when it has none. *)
Definition trunc (f : spec_float) : option Z :=
  match f with
  | S754_zero _ => Some 0
  | S754_finite s m e =>
      let a := if 0 <=? e then Z.shiftl (Z.pos m) e
               else Z.shiftr (Z.pos m) (- e) in
      Some (if s then - a else a)
  | _ => None
  end.

(** [int(f)]. The language leaves the result of an unrepresentable value
    to the implementation; amd64 yields the most negative integer. *)
Definition to_int (f : spec_float) : Z :=
  match trunc f with
  | Some z => if (GoInt.minInt <=? z) && (z <=? GoInt.maxInt) then z
              else GoInt.minInt
  | None => GoInt.minInt
  end.

End GoFloat.

Import GoFloat.

(** ** Constants *)

Definition kiB : Z := 1024.
Definition miB : Z := 1024 * kiB.
Definition minAllowedMemoryLimit : Z := 5 * miB.

(** ** Small helpers of the predictor *)

Definition percent (value : Z) : Z :=
  if value =? 0 then value else GoInt.quot value 100.

Definition percentageBetween (this that : Z) : Z :=
  if this =? 0 then this
  else
    let diff := GoInt.sub that this in
    GoFloat.to_int (f64_mul (f64_div (f64_of_Z diff) (f64_of_Z this)) (f64_of_Z 100)).

(** ** The memory bracket *)

Definition processMemoryStats (mUsage : Z) (min max threshold : Z) : Z * Z :=
  let usage := GoInt.to_int mUsage in
  if usage >? GoInt.mul (GoInt.add min (GoInt.quot (percent (GoInt.sub max min)) 100)) threshold then
    let distance := percentageBetween min usage in
    let min := GoInt.add min (GoInt.mul distance (percent min)) in
    let max := GoInt.add min (GoInt.mul threshold (percent min)) in
    (min, max)
  else if usage <? GoInt.mul (GoInt.sub min (GoInt.quot (percent (GoInt.sub max min)) 100)) threshold then
    let min := GoInt.add usage (GoInt.mul threshold (percent usage)) in
    let max := GoInt.add min (GoInt.mul threshold (percent min)) in
    (min, max)
  else (min, max).

(** The bracket step as the specification words it: the band around [min]
    is one hundredth of the bracket's width. *)
Definition processMemoryStats_spec (mUsage : Z) (min max threshold : Z) : Z * Z :=
  let usage := GoInt.to_int mUsage in
  if usage >? GoInt.mul (GoInt.add min (GoInt.quot (GoInt.sub max min) 100)) threshold then
    let min' := GoInt.add min (GoInt.mul (percentageBetween min usage) (GoInt.quot min 100)) in
    (min', GoInt.add min' (GoInt.mul threshold (GoInt.quot min' 100)))
  else if usage <? GoInt.mul (GoInt.sub min (GoInt.quot (GoInt.sub max min) 100)) threshold then
    let min' := GoInt.add usage (GoInt.mul threshold (GoInt.quot usage 100)) in
    (min', GoInt.add min' (GoInt.mul threshold (GoInt.quot min' 100)))
  else (min, max).

(** ** Bounded series *)

(** [array[start:]]: the bounds check fails when [start] exceeds the length. *)
Definition sliceFrom {A : Type} (array : list A) (start : nat) : option (list A) :=
  if (start <=? length array)%nat then Some (drop start array) else None.

Definition fifo {A : Type} (array : list A) (value : A) (size : Z) : option (list A) :=
  if size =? 0 then Some array
  else
    let start := if Z.of_nat (length array) >=? size then 1%nat else 0%nat in
    s ← sliceFrom array start;
    Some (s ++ [value]).

Definition fifoUint : list Z -> Z -> Z -> option (list Z) := fifo.
Definition fifoFloat : list float64 -> float64 -> Z -> option (list float64) := fifo.

(** A run of pushes, each result assigned back to the series. *)
Fixpoint pushAll {A : Type} (series : list A) (values : list A) (size : Z)
  : option (list A) :=
  match values with
  | [] => Some series
  | v :: rest => s ← fifo series v size; pushAll s rest size
  end.

(** The last [n] elements of a list, in order. *)
Definition lastN {A : Type} (n : nat) (l : list A) : list A :=
  drop (length l - n) l.

(** ** Extremes of a series *)

Fixpoint lowestLoop (lowest : Z) (array : list Z) : Z :=
  match array with
  | [] => lowest
  | value :: rest => lowestLoop (if value <? lowest then value else lowest) rest
  end.

Definition lowestOf (array : list Z) : Z :=
  match array with
  | [] => 1
  | first :: _ => lowestLoop first array
  end.

Fixpoint highestLoop (best : Z) (array : list Z) : Z :=
  match array with
  | [] => best
  | value :: rest => highestLoop (if value >? best then value else best) rest
  end.

Definition highestOf (array : list Z) : Z :=
  match array with
  | [] => 0
  | first :: _ => GoInt.to_int (highestLoop first array)
  end.

Definition getExtremeValues (usage lowest highest : Z) : Z * Z :=
  if usage <? lowest then (usage, highest)
  else if usage >? highest then (lowest, usage)
  else (lowest, highest).

Definition checkMemoryEndCondition (lenSerie limit mediumAmplitude : Z) : bool :=
  (lenSerie >=? limit) || ((lenSerie >? GoInt.quot limit 2) && (mediumAmplitude <=? 2)).

(** ** Averages and weights *)

Fixpoint sumUint (total : Z) (array : list Z) : Z :=
  match array with
  | [] => total
  | number :: rest => sumUint (GoInt.uadd total number) rest
  end.

Definition averrage (array : list Z) : Z :=
  match array with
  | [] => 0
  | _ => sumUint 0 array / Z.of_nat (length array)
  end.

(** The loop of [generateMemoryWeight]; it stops at the first zero entry. *)
Fixpoint weightLoop (highest : Z) (array : list Z) : list float32 :=
  match array with
  | [] => []
  | number :: rest =>
      if number =? 0 then []
      else
        let distance := f32_of_Z (GoInt.to_uint64 highest / number) in
        let toAdd := f32_div (f32_of_Z 1) distance in
        (if IsPInf toAdd then f32_of_Z 1 else toAdd) :: weightLoop highest rest
  end.

Definition generateMemoryWeight (array highestArray : list Z) : list float32 :=
  let highest := highestOf highestArray in
  if highest =? 0 then [] else weightLoop highest array.

(** The loop of [weightedAverrage]: [weight[index]] is bounds-checked. *)
Fixpoint weightedLoop (index : nat) (array : list Z) (weight : list float32)
    (total : Z) : option Z :=
  match array with
  | [] => Some total
  | number :: rest =>
      w ← weight !! index;
      weightedLoop (S index) rest weight
        (GoInt.add total (GoFloat.to_int (f32_div (f32_of_Z number) w)))
  end.

Definition weightedAverrage (array : list Z) (weight : list float32) : option Z :=
  if (Z.of_nat (length array) <=? 0) || (Z.of_nat (length weight) <=? 0) then Some 0
  else
    total ← weightedLoop 0 array weight 0;
    Some (GoInt.quot total (Z.of_nat (length array))).

(** The loop of [averrageFloat], on the pair (arrayLen, total). *)
Fixpoint averrageFloatLoop (arrayLen : Z) (total : float64) (array : list float64)
  : Z * float64 :=
  match array with
  | [] => (arrayLen, total)
  | number :: rest =>
      if IsNaN number then averrageFloatLoop (GoInt.sub arrayLen 1) total rest
      else averrageFloatLoop arrayLen (f64_add total number) rest
  end.

Definition averrageFloat (array : list float64) : float64 :=
  let arrayLen := Z.of_nat (length array) in
  if arrayLen <=? 0 then GoFloat.zero
  else
    let '(arrayLen, total) := averrageFloatLoop arrayLen GoFloat.zero array in
    f64_div total (f64_of_Z arrayLen).

(** ** The observor *)

Record TimeSerieRAM := {
  ram_min : list Z;
  ram_max : list Z;
  ram_usage : list Z;
  ram_highest : list Z;
  ram_lowest : list Z;
  ram_amplitude : list Z;
  predicted_min : list Z;
  predicted_max : list Z;
  predicted_threshold : list Z;
  MemoryPrediction : bool
}.

Record TimeSerieCPU := {
  cpu_percent : list float64;
  cpu_usage : list float64;
  predicted_percent : list float64;
  predicted_usage : list float64;
  CPUPrediction : bool
}.

Record Observor := {
  RAM : TimeSerieRAM;
  CPU : TimeSerieCPU
}.

(** The observor [NewObservor] returns: thirteen empty series and both
    prediction flags set. *)
Definition emptyObservor : Observor :=
  {| RAM := {| ram_min := []; ram_max := []; ram_usage := [];
               ram_highest := []; ram_lowest := []; ram_amplitude := [];
               predicted_min := []; predicted_max := []; predicted_threshold := [];
               MemoryPrediction := true |};
     CPU := {| cpu_percent := []; cpu_usage := [];
               predicted_percent := []; predicted_usage := [];
               CPUPrediction := true |} |}.

(** [NewObservor]: every series is [make([]T, 0, size)], which panics on a
    negative size ([None]); the size is the capacity of the series and does
    not show in their contents. *)
Definition NewObservor (size : Z) : option Observor :=
  if size <? 0 then None else Some emptyObservor.

(** ** The limit applier *)

(** The memory part of the update sent to the engine. *)
Record MemoryUpdate := {
  Memory : Z;
  MemorySwap : Z;
  MemoryReservation : Z
}.

(** [sugMax + percent(highest)*(threshold*2)], the threshold raised to 10. *)
Definition computedMemory (sugMax highest threshold : Z) : Z :=
  let threshold := if threshold <? 10 then 10 else threshold in
  GoInt.add sugMax (GoInt.mul (percent highest) (GoInt.mul threshold 2)).

Definition clampMemory (memory : Z) : Z :=
  if memory <? minAllowedMemoryLimit then minAllowedMemoryLimit + miB else memory.

(** [int64(uint64(sugMin) + lowest) / 2]. *)
Definition computedReservation (sugMin lowest : Z) : Z :=
  GoInt.quot (GoInt.to_int (GoInt.uadd (GoInt.to_uint64 sugMin) lowest)) 2.

Definition clampReservation (reservation : Z) : Z :=
  if reservation <? minAllowedMemoryLimit then minAllowedMemoryLimit + 5 * miB
  else reservation.

(** The extremes [UpdateResources] reads: from the observor when there is
    one, from the suggested values otherwise. *)
Definition observedExtremes (obs : option Observor) (sugMin sugMax : Z) : Z * Z :=
  match obs with
  | Some o => (lowestOf (ram_lowest (RAM o)), highestOf (ram_highest (RAM o)))
  | None => (GoInt.to_uint64 sugMin, sugMax)
  end.

Definition UpdateResources_memory (obs : option Observor)
    (sugMin sugMax threshold : Z) : MemoryUpdate :=
  let '(lowest, highest) := observedExtremes obs sugMin sugMax in
  let memory := clampMemory (computedMemory sugMax highest threshold) in
  let reservation := clampReservation (computedReservation sugMin lowest) in
  if reservation >? memory
  then {| Memory := reservation; MemorySwap := -1; MemoryReservation := memory |}
  else {| Memory := memory; MemorySwap := -1; MemoryReservation := reservation |}.

(** The retry loop, as the trace of what it does. The engine's answers are
    an oracle: [update k] tells whether the call number [k] succeeds. *)
Inductive RetryEvent :=
  | ContainerUpdate (call : nat)
  | LogApplied
  | LogFailedAfter (attempts : Z)
  | LogRetrying (seconds : Z)
  | WaitTicker (seconds : Z).

Definition timerSeconds : Z := 30.
Definition baseCount : nat := 10.

Fixpoint retryLoop (update : nat -> bool) (call : nat) (count : nat)
  : list RetryEvent :=
  ContainerUpdate call ::
  if update call then [LogApplied]
  else match count with
       | O => [LogFailedAfter (Z.of_nat baseCount)]
       | S count' =>
           LogRetrying timerSeconds :: WaitTicker timerSeconds ::
           retryLoop update (S call) count'
       end.

Definition UpdateResources_retry (update : nat -> bool) : list RetryEvent :=
  retryLoop update 0 baseCount.

Definition isAttempt (e : RetryEvent) : bool :=
  match e with ContainerUpdate _ => true | _ => false end.

Definition isWait (e : RetryEvent) : bool :=
  match e with WaitTicker _ => true | _ => false end.

Definition attempts (trace : list RetryEvent) : nat :=
  length (filter (fun e => isAttempt e = true) trace).

Definition waits (trace : list RetryEvent) : nat :=
  length (filter (fun e => isWait e = true) trace).

(** ** The watcher *)

(** The variables of [Watch] the memory branch works on. *)
Record MemoryVars := {
  w_min : Z;
  w_max : Z;
  w_threshold : Z;
  w_lowest : Z;
  w_highest : Z;
  w_memoryTurn : Z
}.

(** The variables of [Watch] the CPU branch works on. *)
Record CPUVars := {
  w_oldUsage : Z;
  w_oldSystem : Z;
  w_cpuTurn : Z
}.

(** The derived category ["memoryAR"]; the source stores the decimal
    strings of these integers. *)
Record MemoryAR := {
  nmin : Z;
  nmax : Z;
  opti : Z;
  usage : Z
}.

(** The derived category ["cpuAR"]; the source stores the formatted floats. *)
Record CpuAR := {
  percentOpti : float64;
  usageOpti : float64
}.

(** One usage sample, the fields of [types.StatsJSON] the watcher reads. *)
Record Sample := {
  MemoryUsage : Z;
  TotalUsage : Z;
  SystemUsage : Z;
  OnlineCPUs : Z
}.

(** The amplitude of a window, as line 491 computes it. *)
Definition windowAmplitude (highest lowest : Z) : option Z :=
  GoInt.udiv highest lowest.

(** The body of the memory branch once [memoryTurn >= ar.Limit]. *)
Definition memoryWindow (Limit : Z) (mUsage : Z) (v : MemoryVars) (ts : TimeSerieRAM)
  : option (MemoryVars * TimeSerieRAM * MemoryAR) :=
  let highest := w_highest v in
  let lowest := w_lowest v in
  s_highest ← fifoUint (ram_highest ts) highest Limit;
  s_lowest ← fifoUint (ram_lowest ts) lowest Limit;
  amplitude ← windowAmplitude highest lowest;
  s_amplitude ← fifoUint (ram_amplitude ts) amplitude Limit;
  let aMin := averrage (ram_min ts) in
  let aMax := averrage (ram_max ts) in
  let aMin := GoInt.uadd aMin (GoInt.umul (aMin / 100)
                (GoInt.to_uint64 (percentageBetween (GoInt.to_int aMin) (GoInt.to_int lowest)))) in
  let aMax := GoInt.uadd aMax (GoInt.umul (aMax / 100)
                (GoInt.to_uint64 (percentageBetween (GoInt.to_int aMax) (GoInt.to_int highest)))) in
  p_min ← fifoUint (predicted_min ts) aMin Limit;
  p_max ← fifoUint (predicted_max ts) aMax Limit;
  let medAmplitude := averrage s_amplitude in
  let lenSerie := Z.of_nat (length p_min) in
  p_threshold ← fifoUint (predicted_threshold ts) medAmplitude Limit;
  threshold ← weightedAverrage p_threshold (generateMemoryWeight p_threshold p_threshold);
  avMin ← weightedAverrage p_min (generateMemoryWeight p_min s_lowest);
  avMax ← weightedAverrage p_max (generateMemoryWeight p_max s_highest);
  Some ({| w_min := w_min v; w_max := w_max v; w_threshold := threshold;
           w_lowest := mUsage; w_highest := 0; w_memoryTurn := 0 |},
        {| ram_min := ram_min ts; ram_max := ram_max ts; ram_usage := ram_usage ts;
           ram_highest := s_highest; ram_lowest := s_lowest; ram_amplitude := s_amplitude;
           predicted_min := p_min; predicted_max := p_max;
           predicted_threshold := p_threshold;
           MemoryPrediction := checkMemoryEndCondition lenSerie Limit medAmplitude |},
        {| nmin := GoInt.add avMin (GoInt.mul (percent avMin) threshold);
           nmax := GoInt.add avMax (GoInt.mul (percent avMax) threshold);
           opti := threshold;
           usage := GoInt.to_int mUsage |}).

(** The memory branch of the per-category dispatch. *)
Definition memoryBranch (Limit : Z) (mUsage : Z) (v : MemoryVars) (ts : TimeSerieRAM)
    (ar : MemoryAR) : option (MemoryVars * TimeSerieRAM * MemoryAR) :=
  let '(min, max) := processMemoryStats mUsage (w_min v) (w_max v) (w_threshold v) in
  let '(lowest, highest) := getExtremeValues mUsage (w_lowest v) (w_highest v) in
  s_min ← fifoUint (ram_min ts) (GoInt.to_uint64 min) Limit;
  s_max ← fifoUint (ram_max ts) (GoInt.to_uint64 max) Limit;
  s_usage ← fifoUint (ram_usage ts) mUsage Limit;
  let ts := {| ram_min := s_min; ram_max := s_max; ram_usage := s_usage;
               ram_highest := ram_highest ts; ram_lowest := ram_lowest ts;
               ram_amplitude := ram_amplitude ts;
               predicted_min := predicted_min ts; predicted_max := predicted_max ts;
               predicted_threshold := predicted_threshold ts;
               MemoryPrediction := MemoryPrediction ts |} in
  let v := {| w_min := min; w_max := max; w_threshold := w_threshold v;
              w_lowest := lowest; w_highest := highest;
              w_memoryTurn := w_memoryTurn v |} in
  if w_memoryTurn v >=? Limit then memoryWindow Limit mUsage v ts
  else
    Some ({| w_min := min; w_max := max; w_threshold := w_threshold v;
             w_lowest := lowest; w_highest := highest;
             w_memoryTurn := GoInt.add (w_memoryTurn v) 1 |}, ts, ar).

(** The percent of one tick: [(deltaUsage / deltaSystem) * numCPUs * 100.0]. *)
Definition cpuDeltaUsage (input : Sample) (v : CPUVars) : float64 :=
  f64_sub (f64_of_Z (TotalUsage input)) (f64_of_Z (w_oldUsage v)).

Definition cpuPercent (input : Sample) (v : CPUVars) : float64 :=
  let deltaUsage := cpuDeltaUsage input v in
  let deltaSystem := f64_sub (f64_of_Z (SystemUsage input)) (f64_of_Z (w_oldSystem v)) in
  let numCPUs := f64_of_Z (OnlineCPUs input) in
  f64_mul (f64_mul (f64_div deltaUsage deltaSystem) numCPUs) (f64_of_Z 100).

(** The CPU branch of the per-category dispatch. *)
Definition cpuBranch (Limit : Z) (input : Sample) (v : CPUVars) (ts : TimeSerieCPU)
    (ar : CpuAR) : option (CPUVars * TimeSerieCPU * CpuAR) :=
  let deltaUsage := cpuDeltaUsage input v in
  let CPUPercent := cpuPercent input v in
  s_percent ← fifoFloat (cpu_percent ts) CPUPercent Limit;
  s_usage ← fifoFloat (cpu_usage ts) deltaUsage Limit;
  if w_cpuTurn v >=? Limit then
    let avPercent := averrageFloat s_percent in
    let avUsage := averrageFloat s_usage in
    p_percent ← fifoFloat (predicted_percent ts) avPercent Limit;
    p_usage ← fifoFloat (predicted_usage ts) avUsage Limit;
    let done := Z.of_nat (length p_percent) >=? Limit in
    Some ({| w_oldUsage := w_oldUsage v; w_oldSystem := w_oldSystem v; w_cpuTurn := 0 |},
          {| cpu_percent := s_percent; cpu_usage := s_usage;
             predicted_percent := p_percent; predicted_usage := p_usage;
             CPUPrediction := if done then true else CPUPrediction ts |},
          if done
          then {| percentOpti := averrageFloat p_percent;
                  usageOpti := averrageFloat p_usage |}
          else ar)
  else
    Some ({| w_oldUsage := TotalUsage input; w_oldSystem := SystemUsage input;
             w_cpuTurn := GoInt.add (w_cpuTurn v) 1 |},
          {| cpu_percent := s_percent; cpu_usage := s_usage;
             predicted_percent := predicted_percent ts;
             predicted_usage := predicted_usage ts;
             CPUPrediction := CPUPrediction ts |},
          ar).

(** ** Slices and their backing arrays

    A slice is a window on a backing array; [append] writes into the array
    when there is room behind the window and allocates a copy otherwise, and
    in both cases the new length lives only in the slice it returns. *)

Module GoSlice.

Record slice := {
  base : nat;
  off : nat;
  len : nat;
  cap : nat
}.

Section Slices.
Context {A : Type}.
(** The zero value of the element type. *)
Variable zeroValue : A.
(** The capacity the runtime chooses when it must grow a slice of
    capacity [old] to hold [need] elements. *)
Variable growCap : nat -> nat -> nat.

(** The allocated arrays, by address, are a [list (list A)]: the heap. *)

Definition backing (h : list (list A)) (s : slice) : list A :=
  default [] (h !! base s).

(** The elements a slice shows. *)
Definition view (h : list (list A)) (s : slice) : list A :=
  take (len s) (drop (off s) (backing h s)).

Definition wf (h : list (list A)) (s : slice) : Prop :=
  (base s < length h)%nat /\
  (off s + cap s <= length (backing h s))%nat /\
  (len s <= cap s)%nat.

(** [make([]T, n, c)]. *)
Definition make (h : list (list A)) (n c : nat) : list (list A) * slice :=
  (h ++ [replicate c zeroValue],
   {| base := length h; off := 0; len := n; cap := c |}).

(** [s[start:]]. *)
Definition sliceFrom (s : slice) (start : nat) : option slice :=
  if (start <=? len s)%nat
  then Some {| base := base s; off := off s + start;
               len := len s - start; cap := cap s - start |}
  else None.

(** [append(s, v)]. *)
Definition append (h : list (list A)) (s : slice) (v : A) : list (list A) * slice :=
  if (len s <? cap s)%nat then
    (<[base s := <[(off s + len s)%nat := v]> (backing h s)]> h,
     {| base := base s; off := off s; len := S (len s); cap := cap s |})
  else
    let c := Nat.max (S (len s)) (growCap (cap s) (S (len s))) in
    (h ++ [view h s ++ v :: replicate (c - S (len s)) zeroValue],
     {| base := length h; off := 0; len := S (len s); cap := c |}).

(** [fifoUint] and [fifoFloat], on slices. *)
Definition fifo (h : list (list A)) (array : slice) (value : A) (size : Z)
  : option (list (list A) * slice) :=
  if size =? 0 then Some (h, array)
  else
    let start := if Z.of_nat (len array) >=? size then 1%nat else 0%nat in
    s ← sliceFrom array start;
    Some (append h s value).

End Slices.

End GoSlice.

(** Signed division by a variable; [None] is the panic on a zero divisor. *)
Definition sdiv (a b : Z) : option Z :=
  if b =? 0 then None else Some (GoInt.quot a b).

(** The value [startRoutine] means to seed the CPU series with. *)
Definition cpuSeed (ncpus cpuMin cpuMax : Z) : option float64 :=
  q ← sdiv (GoInt.quot (GoInt.add cpuMin cpuMax) 2) ncpus;
  Some (f64_of_Z q).

(** What [startRoutine] does to the CPU percent series, on the slice the
    observor holds: the call's result is not assigned, so the observor keeps
    the slice [percent] it had and only the arrays can change. *)
Definition startRoutine_percent (growCap : nat -> nat -> nat)
    (h : list (list float64)) (percent : GoSlice.slice) (ncpus cpuMin cpuMax Limit : Z)
  : option (list (list float64)) :=
  if negb (cpuMin =? 0) && negb (cpuMax =? 0) then
    seed ← cpuSeed ncpus cpuMin cpuMax;
    r ← GoSlice.fifo GoFloat.zero growCap h percent seed Limit;
    Some (fst r)
  else Some h.

(** The categories of [ar.Config]. *)
Definition catMemory : string := "memory"%string.
Definition catCPU : string := "cpu%"%string.
Definition catMemoryAR : string := "memoryAR"%string.
Definition catCpuAR : string := "cpuAR"%string.

(** The watcher, with the contents of its series. [Config] holds the keys
    of the map [ar.Config]; the values of the two configured categories are
    read once, by [baseValueMemory] and [baseValueCPU], and those of the two
    derived categories are [memoryAR] and [cpuAR]: what the configuration
    held under these names when [Watch] started, until a base value function
    or a branch of [Watch] replaces them. *)
Record Watcher := {
  Obs : Observor;
  Limit : Z;
  Config : list string;
  started : bool;
  Finished : bool;
  memoryVars : MemoryVars;
  cpuVars : CPUVars;
  cpuMin : Z;
  cpuMax : Z;
  memoryAR : MemoryAR;
  cpuAR : CpuAR
}.

Definition IsActivated (config : list string) (category : string) : bool :=
  bool_decide (category ∈ config).

(** [ar.Config[category] = make(map[string]string)]. *)
Definition addCategory (config : list string) (category : string) : list string :=
  if IsActivated config category then config else config ++ [category].

(** [baseValueMemory]; [parsed] is what [strconv.Atoi] reads of the keys
    [min], [max] and [threshold] of the ["memory"] category. The new map of
    ["memoryAR"] is [addCategory] on the keys and [baseMemoryAR] on the
    values. *)
Definition baseValueMemory (config : list string) (parsed : Z * Z * Z)
  : Z * Z * Z * list string :=
  if IsActivated config catMemory then
    let '(min, max, threshold) := parsed in
    (if min <? 10000 then 10000 else min,
     if max <? 20000 then 20000 else max,
     if threshold =? 0 then 30 else threshold,
     addCategory config catMemoryAR)
  else (0, 0, 0, config).

Definition baseValueCPU (config : list string) (parsed : Z * Z)
  : Z * Z * list string :=
  if IsActivated config catCPU then
    let '(cMin, cMax) := parsed in (cMin, cMax, addCategory config catCpuAR)
  else (0, 0, config).

(** The values of ["memoryAR"] after [baseValueMemory]: with ["memory"]
    activated the category is replaced by an empty map, whose keys all read
    as 0; otherwise it is left as configured. *)
Definition baseMemoryAR (config : list string) (configured : MemoryAR) : MemoryAR :=
  if IsActivated config catMemory
  then {| nmin := 0; nmax := 0; opti := 0; usage := 0 |}
  else configured.

(** The same for ["cpuAR"] and [baseValueCPU]. *)
Definition baseCpuAR (config : list string) (configured : CpuAR) : CpuAR :=
  if IsActivated config catCPU
  then {| percentOpti := GoFloat.zero; usageOpti := GoFloat.zero |}
  else configured.

(** The state [Watch] starts its loop in. [memory] and [cpu] are what is
    read of the two configured categories, [derived] what the configuration
    holds under ["memoryAR"] and ["cpuAR"] (zeros for a missing category or
    key). *)
Definition watchStart (obs : Observor) (limit : Z) (config : list string)
    (memory : Z * Z * Z) (cpu : Z * Z) (derived : MemoryAR * CpuAR) : Watcher :=
  let mAR := baseMemoryAR config (fst derived) in
  let '(min, max, threshold, config) := baseValueMemory config memory in
  let cAR := baseCpuAR config (snd derived) in
  let '(cMin, cMax, config) := baseValueCPU config cpu in
  {| Obs := obs; Limit := limit; Config := config;
     started := false; Finished := false;
     memoryVars := {| w_min := min; w_max := max; w_threshold := threshold;
                      w_lowest := 0; w_highest := 0; w_memoryTurn := 0 |};
     cpuVars := {| w_oldUsage := 0; w_oldSystem := 0; w_cpuTurn := 0 |};
     cpuMin := cMin; cpuMax := cMax;
     memoryAR := mAR; cpuAR := cAR |}.

(** A configuration that holds nothing under the derived categories. *)
Definition noDerived : MemoryAR * CpuAR :=
  ({| nmin := 0; nmax := 0; opti := 0; usage := 0 |},
   {| percentOpti := GoFloat.zero; usageOpti := GoFloat.zero |}).

Definition setRAM (o : Observor) (ts : TimeSerieRAM) : Observor :=
  {| RAM := ts; CPU := CPU o |}.

Definition setCPU (o : Observor) (ts : TimeSerieCPU) : Observor :=
  {| RAM := RAM o; CPU := ts |}.

Definition setMemoryPrediction (ts : TimeSerieRAM) (b : bool) : TimeSerieRAM :=
  {| ram_min := ram_min ts; ram_max := ram_max ts; ram_usage := ram_usage ts;
     ram_highest := ram_highest ts; ram_lowest := ram_lowest ts;
     ram_amplitude := ram_amplitude ts;
     predicted_min := predicted_min ts; predicted_max := predicted_max ts;
     predicted_threshold := predicted_threshold ts;
     MemoryPrediction := b |}.

Definition setCPUPrediction (ts : TimeSerieCPU) (b : bool) : TimeSerieCPU :=
  {| cpu_percent := cpu_percent ts; cpu_usage := cpu_usage ts;
     predicted_percent := predicted_percent ts;
     predicted_usage := predicted_usage ts;
     CPUPrediction := b |}.

Definition setLowest (w : Watcher) (lowest : Z) : Watcher :=
  let v := memoryVars w in
  {| Obs := Obs w; Limit := Limit w; Config := Config w;
     started := started w; Finished := Finished w;
     memoryVars := {| w_min := w_min v; w_max := w_max v;
                      w_threshold := w_threshold v;
                      w_lowest := lowest; w_highest := w_highest v;
                      w_memoryTurn := w_memoryTurn v |};
     cpuVars := cpuVars w;
     cpuMin := cpuMin w; cpuMax := cpuMax w;
     memoryAR := memoryAR w; cpuAR := cpuAR w |}.

(** What [startRoutine] changes: the prediction flags of the activated
    categories and [started]. *)
Definition markStarted (w : Watcher) : Watcher :=
  let ram := if IsActivated (Config w) catMemory
             then setMemoryPrediction (RAM (Obs w)) false
             else RAM (Obs w) in
  let cpu := if IsActivated (Config w) catCPU
             then setCPUPrediction (CPU (Obs w)) false
             else CPU (Obs w) in
  {| Obs := {| RAM := ram; CPU := cpu |}; Limit := Limit w; Config := Config w;
     started := true; Finished := Finished w;
     memoryVars := memoryVars w; cpuVars := cpuVars w;
     cpuMin := cpuMin w; cpuMax := cpuMax w;
     memoryAR := memoryAR w; cpuAR := cpuAR w |}.

(** [startRoutine] on the contents of the series. The seed is computed and
    passed to [fifoFloat] (either can panic), and the series the observor
    holds keeps its contents: see [startRoutine_percent]. *)
Definition startRoutine (w : Watcher) (ncpus cMin cMax : Z) : option Watcher :=
  if negb (cMin =? 0) && negb (cMax =? 0) then
    seed ← cpuSeed ncpus cMin cMax;
    _ ← fifoFloat (cpu_percent (CPU (Obs w))) seed (Limit w);
    Some (markStarted w)
  else Some (markStarted w).

Definition isInBadState (dead running : bool) : bool := dead || negb running.

Definition isFinished (w : Watcher) : bool :=
  MemoryPrediction (RAM (Obs w)) && CPUPrediction (CPU (Obs w)) && negb (Finished w).

(** [strings.Compare(category, value) == 0 && !done]. *)
Definition continueIteration (category value : string) (done : bool) : bool :=
  String.eqb category value && negb done.

(** The memory branch, on the watcher. *)
Definition memoryStep (w : Watcher) (input : Sample) : option Watcher :=
  r ← memoryBranch (Limit w) (MemoryUsage input) (memoryVars w)
        (RAM (Obs w)) (memoryAR w);
  let '(v, ts, ar) := r in
  Some {| Obs := setRAM (Obs w) ts; Limit := Limit w; Config := Config w;
          started := started w; Finished := Finished w;
          memoryVars := v; cpuVars := cpuVars w;
          cpuMin := cpuMin w; cpuMax := cpuMax w;
          memoryAR := ar; cpuAR := cpuAR w |}.

(** The CPU branch, on the watcher. *)
Definition cpuStep (w : Watcher) (input : Sample) : option Watcher :=
  r ← cpuBranch (Limit w) input (cpuVars w) (CPU (Obs w)) (cpuAR w);
  let '(v, ts, ar) := r in
  Some {| Obs := setCPU (Obs w) ts; Limit := Limit w; Config := Config w;
          started := started w; Finished := Finished w;
          memoryVars := memoryVars w; cpuVars := v;
          cpuMin := cpuMin w; cpuMax := cpuMax w;
          memoryAR := memoryAR w; cpuAR := ar |}.

(** The body of [for category := range ar.Config]. *)
Definition categoryStep (category : string) (w : Watcher) (input : Sample)
  : option Watcher :=
  if continueIteration category catMemory (MemoryPrediction (RAM (Obs w)))
  then memoryStep w input
  else if continueIteration category catCPU (CPUPrediction (CPU (Obs w)))
  then cpuStep w input
  else Some w.

(** The per-category dispatch of one tick, over the categories in the order
    the range visits them. *)
Fixpoint dispatchOn (categories : list string) (w : Watcher) (input : Sample)
  : option Watcher :=
  match categories with
  | [] => Some w
  | category :: rest =>
      w1 ← categoryStep category w input;
      dispatchOn rest w1 input
  end.

Definition dispatch (w : Watcher) (input : Sample) : option Watcher :=
  dispatchOn (Config w) w input.

Inductive TickResult :=
  | Continue (w : Watcher)
  | Exited
  | Applied (update : option MemoryUpdate).

(** One iteration of the loop of [Watch] on an accepted sample; [dead] and
    [running] are the state of the target at that time. When the watcher is
    finished the tick ends with [UpdateResources], of which the memory part
    of the update is kept. *)
Definition tick (w : Watcher) (dead running : bool) (input : Sample)
  : option TickResult :=
  if isInBadState dead running then Some Exited
  else if negb (started w) then
    w1 ← startRoutine (setLowest w (MemoryUsage input)) (OnlineCPUs input)
           (cpuMin w) (cpuMax w);
    w2 ← dispatch w1 input;
    Some (Continue w2)
  else if isFinished w then
    Some (Applied
            (if IsActivated (Config w) catMemoryAR
             then Some (UpdateResources_memory (Some (Obs w)) (nmin (memoryAR w))
                          (nmax (memoryAR w)) (opti (memoryAR w)))
             else None))
  else
    w2 ← dispatch w input;
    Some (Continue w2).

(** A run of ticks on a healthy target. *)
Fixpoint run (w : Watcher) (inputs : list Sample) : option TickResult :=
  match inputs with
  | [] => Some (Continue w)
  | input :: rest =>
      r ← tick w false true input;
      match r with
      | Continue w' => run w' rest
      | _ => Some r
      end
  end.

(** The windows of [Watch] fold [getExtremeValues] over their samples. *)
Fixpoint trackExtremes (lowest highest : Z) (samples : list Z) : Z * Z :=
  match samples with
  | [] => (lowest, highest)
  | u :: rest =>
      let '(lowest, highest) := getExtremeValues u lowest highest in
      trackExtremes lowest highest rest
  end.

(** [u0 > u1 > ... > un]. *)
Fixpoint decreasing (u0 : Z) (samples : list Z) : Prop :=
  match samples with
  | [] => True
  | u :: rest => u < u0 /\ decreasing u rest
  end.

(** A series that holds only not-a-number entries. *)
Definition allNaN (array : list float64) : Prop :=
  Forall (fun number => IsNaN number = true) array.

(** The entries [averrageFloat] counts and their sum. *)
Definition numbers (array : list float64) : list float64 :=
  filter (fun number => IsNaN number = false) array.

Fixpoint sumFloat (total : float64) (array : list float64) : float64 :=
  match array with
  | [] => total
  | number :: rest => sumFloat (f64_add total number) rest
  end.

(** The percent series after a push of the percent of [input]. *)
Definition pushedPercent (w : Watcher) (input : Sample) : list float64 :=
  (if Z.of_nat (length (cpu_percent (CPU (Obs w)))) >=? Limit w
   then drop 1 (cpu_percent (CPU (Obs w))) else cpu_percent (CPU (Obs w)))
  ++ [cpuPercent input (cpuVars w)].

(** The previous values after a tick inside the window. *)
Definition seededVars (w : Watcher) (input : Sample) : CPUVars :=
  {| w_oldUsage := TotalUsage input; w_oldSystem := SystemUsage input;
     w_cpuTurn := GoInt.add (w_cpuTurn (cpuVars w)) 1 |}.

(** ** The core set of the update *)

(** [strconv.Itoa]. *)
Definition Itoa (i : Z) : string := pretty i.

(** The loop of [CPUUsageToConfig]; [fuel] bounds the iterations left. *)
Fixpoint configLoop (fuel : nat) (i n : Z) (config : string) : string :=
  match fuel with
  | O => config
  | S fuel' =>
      if i <? n then
        let config := config +:+ Itoa i in
        let config := if GoInt.add i 1 <? n then config +:+ "," else config in
        configLoop fuel' (GoInt.add i 1) n config
      else config
  end.

(** [n := 1 + int(fUsage/100)]. *)
Definition coreCount (fUsage : float64) : Z :=
  GoInt.add 1 (GoFloat.to_int (f64_div fUsage (f64_of_Z 100))).

(** [CPUUsageToConfig], on the float [strconv.ParseFloat] read of its
    argument (0 when the string is not a number). *)
Definition CPUUsageToConfig (fUsage : float64) : string * string :=
  if SFleb fUsage GoFloat.zero then (""%string, ""%string)
  else
    let n := coreCount fUsage in
    (configLoop (Z.to_nat n) 0 n "", Itoa n).

(** ** Copies of the configuration *)

(** [ConvertAutoRange]: both maps are ranged over and copied entry by
    entry into new maps. *)
Definition copyCategory (category : gmap string string) : gmap string string :=
  map_fold (fun subKey subValue m => <[subKey := subValue]> m) ∅ category.

Definition ConvertAutoRange (autoRange : gmap string (gmap string string))
  : gmap string (gmap string string) :=
  map_fold (fun key category ar => <[key := copyCategory category]> ar) ∅ autoRange.

(** ** The collector's side ([daemon/stats.go]) *)

(** [strings.LastIndex(s, substr)]: the index of the last instance of
    [substr] in [s], or -1. The scan keeps the last position at which
    [substr] is a prefix of what is left. *)
Fixpoint lastIndexFrom (substr s : string) (i found : Z) : Z :=
  match s with
  | EmptyString => if String.prefix substr s then i else found
  | String _ rest =>
      lastIndexFrom substr rest (i + 1) (if String.prefix substr s then i else found)
  end.

Definition LastIndex (s substr : string) : Z := lastIndexFrom substr s 0 (-1).

(** [s[:high]]; [None] is the panic on a bound out of range. *)
Definition sliceTo (s : string) (high : Z) : option string :=
  if (0 <=? high) && (high <=? Z.of_nat (String.length s))
  then Some (String.substring 0 (Z.to_nat high) s)
  else None.

(** The [ServiceName] a new watcher gets:
    [serviceName[:strings.LastIndex(serviceName, "_")]]. *)
Definition watcherServiceName (serviceName : string) : option string :=
  sliceTo serviceName (LastIndex serviceName "_").

Fixpoint hasByte (c : ascii) (s : string) : bool :=
  match s with
  | EmptyString => false
  | String c' rest => if Ascii.eqb c c' then true else hasByte c rest
  end.

(** The network counters of one interface. *)
Record NetworkStats := {
  RxBytes : Z;
  RxPackets : Z;
  RxErrors : Z;
  RxDropped : Z;
  TxBytes : Z;
  TxPackets : Z;
  TxErrors : Z;
  TxDropped : Z
}.

(** One iteration of the loop that sums the interfaces for API versions
    before 1.21. *)
Definition addNetwork (total v : NetworkStats) : NetworkStats :=
  {| RxBytes := GoInt.uadd (RxBytes total) (RxBytes v);
     RxPackets := GoInt.uadd (RxPackets total) (RxPackets v);
     RxErrors := GoInt.uadd (RxErrors total) (RxErrors v);
     RxDropped := GoInt.uadd (RxDropped total) (RxDropped v);
     TxBytes := GoInt.uadd (TxBytes total) (TxBytes v);
     TxPackets := GoInt.uadd (TxPackets total) (TxPackets v);
     TxErrors := GoInt.uadd (TxErrors total) (TxErrors v);
     TxDropped := GoInt.uadd (TxDropped total) (TxDropped v) |}.

Definition noNetwork : NetworkStats :=
  {| RxBytes := 0; RxPackets := 0; RxErrors := 0; RxDropped := 0;
     TxBytes := 0; TxPackets := 0; TxErrors := 0; TxDropped := 0 |}.

(** The sum over the interfaces, in the order the range visits them. *)
Definition sumNetworks (networks : list NetworkStats) : NetworkStats :=
  foldl addNetwork noNetwork networks.

(** ** Runs of the memory branch *)

(** The memory branch on the samples of successive ticks. *)
Fixpoint memoryBranches (limit : Z) (samples : list Z) (v : MemoryVars)
    (ts : TimeSerieRAM) (ar : MemoryAR)
  : option (MemoryVars * TimeSerieRAM * MemoryAR) :=
  match samples with
  | [] => Some (v, ts, ar)
  | mUsage :: rest =>
      r ← memoryBranch limit mUsage v ts ar;
      let '(v', ts', ar') := r in
      memoryBranches limit rest v' ts' ar'
  end.

(** Every series of the observor holds at most [n] entries. *)
Definition ramBounded (n : Z) (ts : TimeSerieRAM) : Prop :=
  Z.of_nat (length (ram_min ts)) <= n /\
  Z.of_nat (length (ram_max ts)) <= n /\
  Z.of_nat (length (ram_usage ts)) <= n /\
  Z.of_nat (length (ram_highest ts)) <= n /\
  Z.of_nat (length (ram_lowest ts)) <= n /\
  Z.of_nat (length (ram_amplitude ts)) <= n /\
  Z.of_nat (length (predicted_min ts)) <= n /\
  Z.of_nat (length (predicted_max ts)) <= n /\
  Z.of_nat (length (predicted_threshold ts)) <= n.

Definition cpuBounded (n : Z) (ts : TimeSerieCPU) : Prop :=
  Z.of_nat (length (cpu_percent ts)) <= n /\
  Z.of_nat (length (cpu_usage ts)) <= n /\
  Z.of_nat (length (predicted_percent ts)) <= n /\
  Z.of_nat (length (predicted_usage ts)) <= n.

Definition seriesBounded (n : Z) (o : Observor) : Prop :=
  ramBounded n (RAM o) /\ cpuBounded n (CPU o).

(** The minimum and the maximum of a value and a series. *)
Definition minimumOf (lowest : Z) (samples : list Z) : Z := foldl Z.min lowest samples.
Definition maximumOf (highest : Z) (samples : list Z) : Z := foldl Z.max highest samples.

(** * Properties *)

(** ** The model on known values *)

Example float_one_third :
  f64_div (f64_of_Z 1) (f64_of_Z 3) = S754_finite false 6004799503160661 (-54).
Proof. reflexivity. Qed.

Example float_to_int_truncates :
  GoFloat.to_int (f64_div (f64_of_Z (-37)) (f64_of_Z 10)) = -3 /\
  GoFloat.to_int (f64_div (f64_of_Z 37) (f64_of_Z 10)) = 3 /\
  GoFloat.to_int NaN = GoInt.minInt.
Proof. repeat split. Qed.

Example percentageBetween_doubles : percentageBetween 1000 2000 = 100.
Proof. reflexivity. Qed.

(** [total=100, prevTotal=50, system=1000, prevSystem=500, cores=2] gives
    a percent of 20. *)
Example cpuPercent_twenty :
  cpuPercent {| MemoryUsage := 0; TotalUsage := 100; SystemUsage := 1000; OnlineCPUs := 2 |}
             {| w_oldUsage := 50; w_oldSystem := 500; w_cpuTurn := 0 |}
  = f64_of_Z 20.
Proof. reflexivity. Qed.

(** A usage far above the band strictly increases [min]. *)
Example processMemoryStats_grows :
  processMemoryStats 100000 1000 2000 30 = (100000, 130000).
Proof. reflexivity. Qed.

(** ** Machine integers *)

Lemma wrap_id (z : Z) : GoInt.in_int z -> GoInt.wrap z = z.
Proof.
  unfold GoInt.in_int, GoInt.wrap, GoInt.minInt, GoInt.maxInt, GoInt.two64, GoInt.two63.
  intros H. rewrite Z.mod_small; lia.
Qed.

Lemma wrap_range (z : Z) : GoInt.in_int (GoInt.wrap z).
Proof.
  unfold GoInt.in_int, GoInt.wrap, GoInt.minInt, GoInt.maxInt, GoInt.two64, GoInt.two63.
  pose proof (Z.mod_pos_bound (z + 2 ^ 63) (2 ^ 64) ltac:(lia)). lia.
Qed.

Lemma percent_quot (value : Z) : percent value = GoInt.quot value 100.
Proof.
  unfold percent. destruct (Z.eqb_spec value 0) as [-> | _]; reflexivity.
Qed.

(** ** The memory bracket *)

(** C1 (as amended). The bracket step of [processMemoryStats]: the band
    around [min] is the bracket's width divided by 100 twice; above
    [(min + band) * threshold] the bracket grows by the percentage change,
    below [(min - band) * threshold] it shrinks onto the usage, and otherwise
    it is returned unchanged. All arithmetic is Go's 64-bit [int]. *)
Theorem processMemoryStats_bracket (mUsage min max threshold : Z) :
  let usage := GoInt.to_int mUsage in
  let band := GoInt.quot (GoInt.quot (GoInt.sub max min) 100) 100 in
  let upper := GoInt.mul (GoInt.add min band) threshold in
  let lower := GoInt.mul (GoInt.sub min band) threshold in
  let grown := GoInt.add min (GoInt.mul (percentageBetween min usage) (GoInt.quot min 100)) in
  let shrunk := GoInt.add usage (GoInt.mul threshold (GoInt.quot usage 100)) in
  (usage > upper ->
   processMemoryStats mUsage min max threshold =
     (grown, GoInt.add grown (GoInt.mul threshold (GoInt.quot grown 100)))) /\
  (usage <= upper -> usage < lower ->
   processMemoryStats mUsage min max threshold =
     (shrunk, GoInt.add shrunk (GoInt.mul threshold (GoInt.quot shrunk 100)))) /\
  (usage <= upper -> lower <= usage ->
   processMemoryStats mUsage min max threshold = (min, max)).
Proof.
  intros usage band upper lower grown shrunk.
  unfold processMemoryStats. rewrite !percent_quot.
  fold usage band upper lower grown shrunk.
  repeat split; intros.
  - destruct (Z.gtb_spec usage upper); [reflexivity | lia].
  - destruct (Z.gtb_spec usage upper); [lia |].
    destruct (Z.ltb_spec usage lower); [reflexivity | lia].
  - destruct (Z.gtb_spec usage upper); [lia |].
    destruct (Z.ltb_spec usage lower); [lia | reflexivity].
Qed.

Lemma processMemoryStats_bracket_witness :
  processMemoryStats 301000 10000 20000 30 = (301000, 391300) /\
  processMemoryStats 50000 110000 120000 10 = (55000, 60500) /\
  processMemoryStats 300020 10000 20000 30 = (10000, 20000).
Proof.
  split; [| split].
  - pose proof (processMemoryStats_bracket 301000 10000 20000 30) as [H _].
    rewrite H; [reflexivity | vm_compute; reflexivity].
  - pose proof (processMemoryStats_bracket 50000 110000 120000 10) as [_ [H _]].
    rewrite H; [reflexivity | vm_compute; discriminate | vm_compute; reflexivity].
  - pose proof (processMemoryStats_bracket 300020 10000 20000 30) as [_ [_ H]].
    rewrite H; [reflexivity | vm_compute; discriminate | vm_compute; discriminate].
Defined.

(** C1 (as stated) fails: with a band of one hundredth of the width, a
    usage of 301000 lies inside the band of the bracket (10000, 20000) at
    threshold 30, so the bracket would be unchanged; the code grows it. *)
Lemma processMemoryStats_spec_differs :
  ~ (301000 > (10000 + (20000 - 10000) / 100) * 30) /\
  ~ (301000 < (10000 - (20000 - 10000) / 100) * 30) /\
  processMemoryStats_spec 301000 10000 20000 30 = (10000, 20000) /\
  processMemoryStats 301000 10000 20000 30 = (301000, 391300).
Proof.
  repeat split; try (vm_compute; congruence).
Qed.

(** ** The limit applier *)

Lemma clampMemory_floor (memory : Z) :
  memory < minAllowedMemoryLimit -> clampMemory memory = minAllowedMemoryLimit + miB.
Proof.
  intros H. unfold clampMemory.
  destruct (Z.ltb_spec memory minAllowedMemoryLimit); [reflexivity | lia].
Qed.

Lemma clampReservation_floor (reservation : Z) :
  reservation < minAllowedMemoryLimit ->
  clampReservation reservation = minAllowedMemoryLimit + 5 * miB.
Proof.
  intros H. unfold clampReservation.
  destruct (Z.ltb_spec reservation minAllowedMemoryLimit); [reflexivity | lia].
Qed.

Lemma clampMemory_above (memory : Z) : minAllowedMemoryLimit <= clampMemory memory.
Proof.
  unfold clampMemory, minAllowedMemoryLimit, miB, kiB.
  destruct (Z.ltb_spec memory (5 * (1024 * 1024))); lia.
Qed.

Lemma clampReservation_above (reservation : Z) :
  minAllowedMemoryLimit <= clampReservation reservation.
Proof.
  unfold clampReservation, minAllowedMemoryLimit, miB, kiB.
  destruct (Z.ltb_spec reservation (5 * (1024 * 1024))); lia.
Qed.

(** C5. In [UpdateResources], a computed memory limit below the floor of
    5 MiB becomes the floor plus 1 MiB, a computed reservation below the
    floor becomes the floor plus 5 MiB, and the two clamped values are then
    put in order: the reservation sent is the smaller one and the limit the
    larger one, so the reservation never exceeds the limit. *)
Theorem UpdateResources_memory_clamps
    (obs : option Observor) (sugMin sugMax threshold : Z) :
  let lowest := fst (observedExtremes obs sugMin sugMax) in
  let highest := snd (observedExtremes obs sugMin sugMax) in
  let memory := computedMemory sugMax highest threshold in
  let reservation := computedReservation sugMin lowest in
  let update := UpdateResources_memory obs sugMin sugMax threshold in
  minAllowedMemoryLimit = 5 * 1024 * 1024 /\
  (memory < minAllowedMemoryLimit ->
   clampMemory memory = minAllowedMemoryLimit + miB) /\
  (reservation < minAllowedMemoryLimit ->
   clampReservation reservation = minAllowedMemoryLimit + 5 * miB) /\
  (clampReservation reservation > clampMemory memory ->
   MemoryReservation update = clampMemory memory /\
   Memory update = clampReservation reservation) /\
  (clampReservation reservation <= clampMemory memory ->
   MemoryReservation update = clampReservation reservation /\
   Memory update = clampMemory memory) /\
  MemoryReservation update <= Memory update.
Proof.
  intros lowest highest memory reservation update.
  assert (Hu : update =
    if clampReservation reservation >? clampMemory memory
    then {| Memory := clampReservation reservation; MemorySwap := -1;
            MemoryReservation := clampMemory memory |}
    else {| Memory := clampMemory memory; MemorySwap := -1;
            MemoryReservation := clampReservation reservation |}).
  { subst update memory reservation lowest highest.
    unfold UpdateResources_memory.
    destruct (observedExtremes obs sugMin sugMax) as [lo hi]. reflexivity. }
  split; [reflexivity |].
  split; [apply clampMemory_floor |].
  split; [apply clampReservation_floor |].
  rewrite Hu.
  destruct (Z.gtb_spec (clampReservation reservation) (clampMemory memory));
    simpl; repeat split; intros; try reflexivity; lia.
Qed.

Lemma UpdateResources_memory_clamps_witness :
  MemoryReservation (UpdateResources_memory None 0 0 0) = 6 * miB /\
  Memory (UpdateResources_memory None 0 0 0) = 10 * miB.
Proof.
  pose proof (UpdateResources_memory_clamps None 0 0 0)
    as (_ & _ & _ & H & _).
  apply H. vm_compute. reflexivity.
Defined.

(** ** The retry loop *)

Lemma retryLoop_all_fail (update : nat -> bool) (count call : nat) :
  (forall k, update k = false) ->
  attempts (retryLoop update call count) = S count /\
  waits (retryLoop update call count) = count /\
  last (retryLoop update call count) = Some (LogFailedAfter (Z.of_nat baseCount)).
Proof.
  intros Hf. revert call.
  induction count as [| count IH]; intros call.
  - simpl. rewrite Hf. repeat split.
  - destruct (IH (S call)) as (Ha & Hw & Hl).
    cbn [retryLoop]. rewrite Hf.
    unfold attempts, waits in *.
    rewrite !filter_cons. simpl.
    rewrite Ha, Hw. repeat split.
    rewrite !last_cons, Hl. reflexivity.
Qed.

(** C4 (the code differs). When every call fails, the loop of
    [UpdateResources] calls the engine eleven times, waits on the 30-second
    ticker ten times, and then logs a failure after 10 attempts. *)
Theorem UpdateResources_retry_eleven :
  attempts (UpdateResources_retry (fun _ => false)) = 11%nat /\
  waits (UpdateResources_retry (fun _ => false)) = 10%nat /\
  last (UpdateResources_retry (fun _ => false)) = Some (LogFailedAfter 10).
Proof.
  exact (retryLoop_all_fail (fun _ => false) baseCount 0 (fun _ => eq_refl)).
Qed.

(** A call that succeeds ends the loop at once: with the first success at
    call [k] (at most the tenth retry) the engine is called [k + 1] times. *)
Lemma retryLoop_success (update : nat -> bool) (k count call : nat) :
  (k <= count)%nat ->
  (forall j, (j < k)%nat -> update (call + j)%nat = false) ->
  update (call + k)%nat = true ->
  attempts (retryLoop update call count) = S k /\
  waits (retryLoop update call count) = k /\
  last (retryLoop update call count) = Some LogApplied.
Proof.
  revert count call.
  induction k as [| k IH]; intros count call Hle Hfail Hok.
  - rewrite Nat.add_0_r in Hok.
    destruct count; simpl; rewrite Hok; repeat split.
  - destruct count as [| count]; [lia |].
    assert (H0 : update call = false).
    { specialize (Hfail 0%nat ltac:(lia)). rewrite Nat.add_0_r in Hfail. exact Hfail. }
    destruct (IH count (S call)) as (Ha & Hw & Hl).
    + lia.
    + intros j Hj. specialize (Hfail (S j) ltac:(lia)).
      replace (S call + j)%nat with (call + S j)%nat by lia. exact Hfail.
    + replace (S call + k)%nat with (call + S k)%nat by lia. exact Hok.
    + cbn [retryLoop]. rewrite H0.
      unfold attempts, waits in *.
      rewrite !filter_cons. simpl.
      rewrite Ha, Hw. repeat split.
      rewrite !last_cons, Hl. reflexivity.
Qed.

(** ** Bounded series *)

Lemma fifo_zero {A : Type} (array : list A) (value : A) :
  fifo array value 0 = Some array.
Proof. reflexivity. Qed.

Lemma fifo_step {A : Type} (array : list A) (value : A) (size : Z) :
  0 < size ->
  fifo array value size =
    Some ((if Z.of_nat (length array) >=? size then drop 1 array else array) ++ [value]).
Proof.
  intros Hs. unfold fifo, sliceFrom.
  destruct (Z.eqb_spec size 0); [lia |].
  destruct (Z.geb_spec (Z.of_nat (length array)) size) as [Hge | Hlt].
  - destruct (Nat.leb_spec 1 (length array)); [reflexivity | lia].
  - simpl. rewrite drop_0. reflexivity.
Qed.

Lemma lastN_length {A : Type} (n : nat) (l : list A) :
  length (lastN n l) = Nat.min n (length l).
Proof. unfold lastN. rewrite length_drop. lia. Qed.

Lemma fifo_lastN {A : Type} (array : list A) (value : A) (size : Z) :
  0 < size -> Z.of_nat (length array) <= size ->
  fifo array value size = Some (lastN (Z.to_nat size) (array ++ [value])).
Proof.
  intros Hs Hlen. rewrite fifo_step by exact Hs. f_equal.
  unfold lastN. rewrite length_app. simpl.
  destruct (Z.geb_spec (Z.of_nat (length array)) size) as [Hge | Hlt].
  - replace (length array + 1 - Z.to_nat size)%nat with 1%nat by lia.
    rewrite drop_app_le by lia. reflexivity.
  - replace (length array + 1 - Z.to_nat size)%nat with 0%nat by lia.
    rewrite drop_0. reflexivity.
Qed.

Lemma lastN_app_lastN {A : Type} (n : nat) (l r : list A) :
  lastN n (lastN n l ++ r) = lastN n (l ++ r).
Proof.
  unfold lastN. rewrite !length_app, length_drop.
  destruct (Nat.le_gt_cases (length l) n) as [Hle | Hgt].
  - replace (length l - n)%nat with 0%nat by lia.
    rewrite drop_0. f_equal. lia.
  - replace (length l - (length l - n) + length r - n)%nat with (length r) by lia.
    destruct (Nat.le_gt_cases (length r) n) as [Hr | Hr].
    + rewrite (drop_app_le (drop _ _)) by (rewrite length_drop; lia).
      rewrite (drop_app_le l) by lia.
      rewrite drop_drop. f_equal. f_equal. lia.
    + rewrite (drop_app_ge (drop _ _)) by (rewrite length_drop; lia).
      rewrite (drop_app_ge l) by lia.
      rewrite length_drop. f_equal. lia.
Qed.

Lemma pushAll_zero {A : Type} (series values : list A) :
  pushAll series values 0 = Some series.
Proof.
  induction values as [| v rest IH]; [reflexivity |].
  simpl. exact IH.
Qed.

Lemma pushAll_lastN {A : Type} (values series : list A) (size : Z) :
  0 < size -> Z.of_nat (length series) <= size ->
  pushAll series values size = Some (lastN (Z.to_nat size) (series ++ values)).
Proof.
  intros Hs. revert series.
  induction values as [| v rest IH]; intros series Hlen.
  - simpl. rewrite app_nil_r. unfold lastN.
    replace (length series - Z.to_nat size)%nat with 0%nat by lia.
    rewrite drop_0. reflexivity.
  - cbn [pushAll]. rewrite fifo_lastN by assumption. simpl.
    rewrite IH.
    + rewrite lastN_app_lastN. rewrite <- app_assoc. reflexivity.
    + rewrite lastN_length. lia.
Qed.

(** C2 (as amended). With capacity 0 every push returns the series
    unchanged. With a capacity [N > 0] a push drops the oldest element when
    the length is already [>= N] and appends the value; pushed onto a series
    no longer than [N] (the observor's series start empty), any run of
    pushes leaves the last [N] elements of the initial series followed by
    the pushed values, in order, and so never more than [N] elements. *)
Theorem fifo_bounded_series {A : Type} (size : Z) (series values : list A) :
  (size = 0 -> pushAll series values size = Some series) /\
  (0 < size ->
   forall value,
     fifo series value size =
       Some ((if Z.of_nat (length series) >=? size then drop 1 series else series)
               ++ [value])) /\
  (0 < size -> Z.of_nat (length series) <= size ->
   pushAll series values size = Some (lastN (Z.to_nat size) (series ++ values)) /\
   Z.of_nat (length (lastN (Z.to_nat size) (series ++ values))) <= size).
Proof.
  split; [| split].
  - intros ->. apply pushAll_zero.
  - intros Hs value. apply fifo_step. exact Hs.
  - intros Hs Hlen. split.
    + apply pushAll_lastN; assumption.
    + rewrite lastN_length. lia.
Qed.

Lemma fifo_bounded_series_witness :
  pushAll [1; 2] [3; 4; 5] 3 = Some [3; 4; 5] /\
  pushAll [] [1; 2] 3 = Some [1; 2] /\
  pushAll [7; 8] [9] 0 = Some [7; 8].
Proof.
  split; [| split].
  - pose proof (@fifo_bounded_series Z 3 [1; 2] [3; 4; 5]) as (_ & _ & H).
    destruct H as [H _]; [lia | simpl; lia |]. exact H.
  - pose proof (@fifo_bounded_series Z 3 [] [1; 2]) as (_ & _ & H).
    destruct H as [H _]; [lia | simpl; lia |]. exact H.
  - pose proof (@fifo_bounded_series Z 0 [7; 8] [9]) as (H & _).
    apply H. reflexivity.
Defined.

(** C2 (as stated) fails for a series that starts longer than the
    capacity: a push keeps its length. *)
Lemma fifo_long_series_stays_long :
  pushAll [1; 2; 3] [4] 1 = Some [2; 3; 4] /\
  (length [2; 3; 4] > 1)%nat.
Proof. split; [reflexivity | simpl; lia]. Qed.

(** A negative capacity always drops: on an empty series the slice bound
    is out of range. *)
Lemma fifo_negative_size_panics : fifo (@nil Z) 7 (-1) = None.
Proof. reflexivity. Qed.

(** ** Averages *)

Lemma wrap_add_idemp (x y : Z) : GoInt.wrap (GoInt.wrap x + y) = GoInt.wrap (x + y).
Proof.
  unfold GoInt.wrap. f_equal.
  replace ((x + GoInt.two63) mod GoInt.two64 - GoInt.two63 + y + GoInt.two63)
    with ((x + GoInt.two63) mod GoInt.two64 + y) by lia.
  rewrite Zplus_mod_idemp_l. f_equal. lia.
Qed.

Lemma averrageFloatLoop_allNaN (array : list float64) (arrayLen : Z) (total : float64) :
  allNaN array ->
  averrageFloatLoop arrayLen total array =
    (match array with
     | [] => arrayLen
     | _ => GoInt.wrap (arrayLen - Z.of_nat (length array))
     end, total).
Proof.
  intros Hall. revert arrayLen.
  induction Hall as [| number rest Hnan Hrest IH]; intros arrayLen; [reflexivity |].
  cbn [averrageFloatLoop]. rewrite Hnan, IH.
  destruct rest as [| number' rest'].
  - unfold GoInt.sub. do 2 f_equal.
  - f_equal. unfold GoInt.sub.
    cbn [length]. rewrite !Nat2Z.inj_succ.
    generalize (Z.of_nat (length rest')). intros k.
    rewrite <- (Z.add_opp_r (GoInt.wrap (arrayLen - 1))), wrap_add_idemp.
    f_equal. lia.
Qed.

(** C8 (the code differs). On a series that is not empty and holds only
    not-a-number entries, [averrageFloat] excludes every entry, divides a
    zero total by a zero count, and returns not-a-number. *)
Theorem averrageFloat_allNaN (array : list float64) :
  array <> [] -> allNaN array -> averrageFloat array = NaN.
Proof.
  intros Hne Hall. unfold averrageFloat.
  destruct array as [| number rest]; [congruence |].
  destruct (Z.leb_spec (Z.of_nat (length (number :: rest))) 0) as [Hle | _].
  { simpl in Hle. lia. }
  rewrite averrageFloatLoop_allNaN by exact Hall.
  rewrite Z.sub_diag. reflexivity.
Qed.

Lemma averrageFloat_allNaN_witness : averrageFloat [NaN] = NaN.
Proof.
  apply (averrageFloat_allNaN [NaN]).
  - discriminate.
  - repeat constructor.
Defined.

Lemma averrageFloatLoop_numbers (array : list float64) (arrayLen : Z) (total : float64) :
  Z.of_nat (length array) <= arrayLen <= GoInt.maxInt ->
  averrageFloatLoop arrayLen total array =
    (arrayLen - Z.of_nat (length array) + Z.of_nat (length (numbers array)),
     sumFloat total (numbers array)).
Proof.
  revert arrayLen total.
  induction array as [| number rest IH]; intros arrayLen total Hlen.
  - simpl. f_equal. lia.
  - cbn [averrageFloatLoop]. unfold numbers in *. rewrite filter_cons.
    simpl in Hlen.
    destruct (IsNaN number) eqn:Hnan.
    + destruct (decide _) as [? | _]; [congruence |].
      unfold GoInt.sub. rewrite wrap_id.
      * rewrite IH by lia. f_equal. cbn [length]. lia.
      * unfold GoInt.in_int, GoInt.minInt, GoInt.maxInt, GoInt.two63 in *. lia.
    + destruct (decide _) as [_ | ?]; [| congruence].
      rewrite IH by lia. cbn [length sumFloat]. f_equal. lia.
Qed.

(** When the series holds a number, the result is the float quotient of
    the sum of the entries that are numbers by their count. *)
Lemma averrageFloat_numbers (array : list float64) :
  Z.of_nat (length array) <= GoInt.maxInt ->
  array <> [] ->
  averrageFloat array =
    f64_div (sumFloat GoFloat.zero (numbers array))
            (f64_of_Z (Z.of_nat (length (numbers array)))).
Proof.
  intros Hmax Hne. unfold averrageFloat.
  destruct (Z.leb_spec (Z.of_nat (length array)) 0) as [Hle | _].
  { destruct array; [congruence | simpl in Hle; lia]. }
  rewrite averrageFloatLoop_numbers by lia.
  do 2 f_equal. lia.
Qed.

(** A sum of numbers can itself be not-a-number. *)
Lemma averrageFloat_infinities : averrageFloat [PInf; NInf] = NaN.
Proof. reflexivity. Qed.

(** ** Weights *)

Lemma weightLoop_length_le (highest : Z) (array : list Z) :
  (length (weightLoop highest array) <= length array)%nat.
Proof.
  induction array as [| number rest IH]; simpl; [lia |].
  destruct (number =? 0); simpl; lia.
Qed.

Lemma weightLoop_stops (highest : Z) (array : list Z) :
  0 ∈ array -> (length (weightLoop highest array) < length array)%nat.
Proof.
  induction array as [| number rest IH]; intros Hin.
  - inversion Hin.
  - simpl. destruct (Z.eqb_spec number 0) as [-> | Hne]; simpl; [lia |].
    apply elem_of_cons in Hin as [Heq | Hin]; [congruence |].
    specialize (IH Hin). lia.
Qed.

Lemma weightedLoop_out_of_range (weight : list float32) (array : list Z)
    (index : nat) (total : Z) :
  (index <= length weight < index + length array)%nat ->
  weightedLoop index array weight total = None.
Proof.
  revert index total.
  induction array as [| number rest IH]; intros index total Hlen.
  - simpl in Hlen. lia.
  - cbn [weightedLoop].
    destruct (weight !! index) as [w |] eqn:Hw.
    + simpl. apply IH. apply lookup_lt_Some in Hw. simpl in Hlen. lia.
    + reflexivity.
Qed.

(** C9 (as amended). When the highest value of the reference series is not
    zero, a series that starts with a nonzero entry and holds a zero entry
    gets fewer weights than it has entries, and [weightedAverrage] reads the
    weights out of range (it panics). *)
Theorem weightedAverrage_out_of_range (first : Z) (rest ref : list Z) :
  first <> 0 -> 0 ∈ first :: rest -> highestOf ref <> 0 ->
  let weight := generateMemoryWeight (first :: rest) ref in
  (0 < length weight < length (first :: rest))%nat /\
  weightedAverrage (first :: rest) weight = None.
Proof.
  intros Hfirst Hzero Href weight.
  assert (Hw : weight = weightLoop (highestOf ref) (first :: rest)).
  { subst weight. unfold generateMemoryWeight.
    destruct (Z.eqb_spec (highestOf ref) 0); [congruence | reflexivity]. }
  assert (Hlt : (length weight < length (first :: rest))%nat).
  { rewrite Hw. apply weightLoop_stops. exact Hzero. }
  assert (Hpos : (0 < length weight)%nat).
  { rewrite Hw. simpl. destruct (Z.eqb_spec first 0); [congruence |]. simpl. lia. }
  split; [lia |].
  unfold weightedAverrage.
  destruct (Z.leb_spec (Z.of_nat (length (first :: rest))) 0) as [H1 | _].
  { simpl in H1. lia. }
  destruct (Z.leb_spec (Z.of_nat (length weight)) 0) as [H2 | _]; [lia |].
  simpl orb. cbv iota.
  rewrite weightedLoop_out_of_range by lia. reflexivity.
Qed.

Lemma weightedAverrage_out_of_range_witness :
  weightedAverrage [1; 0] (generateMemoryWeight [1; 0] [1; 0]) = None.
Proof.
  apply (weightedAverrage_out_of_range 1 [0] [1; 0]).
  - discriminate.
  - repeat constructor.
  - vm_compute. discriminate.
Defined.

(** C9 (as stated) fails when the reference series has no nonzero value:
    no weight is generated and the guard returns 0. *)
Lemma weightedAverrage_empty_reference :
  weightedAverrage [1; 0] (generateMemoryWeight [1; 0] []) = Some 0.
Proof. reflexivity. Qed.

(** ** Slices *)

Section SliceFacts.
Context {A : Type}.
Variable zeroValue : A.
Variable growCap : nat -> nat -> nat.

Implicit Types (h : list (list A)) (s : GoSlice.slice) (b : list A).

Lemma window_insert_behind b (o n : nat) (v : A) :
  take n (drop o (<[(o + n)%nat := v]> b)) = take n (drop o b).
Proof.
  apply list_eq. intros i.
  destruct (decide (i < n)%nat) as [Hlt | Hge].
  - rewrite !lookup_take_lt by exact Hlt. rewrite !lookup_drop.
    apply list_lookup_insert_ne. lia.
  - rewrite !lookup_take_ge by lia. reflexivity.
Qed.

Lemma window_insert_at b (o n : nat) (v : A) :
  (o + n < length b)%nat ->
  take (S n) (drop o (<[(o + n)%nat := v]> b)) = take n (drop o b) ++ [v].
Proof.
  intros Hlt. rewrite (take_S_r _ _ v).
  - rewrite window_insert_behind. reflexivity.
  - rewrite lookup_drop. apply list_lookup_insert_eq. exact Hlt.
Qed.

Lemma view_length h s :
  GoSlice.wf h s -> length (GoSlice.view h s) = GoSlice.len s.
Proof.
  intros (_ & Hcap & Hlen). unfold GoSlice.view.
  rewrite length_take, length_drop. lia.
Qed.

Lemma backing_insert h s b :
  (GoSlice.base s < length h)%nat ->
  GoSlice.backing (<[GoSlice.base s := b]> h) s = b.
Proof.
  intros Hb. unfold GoSlice.backing.
  rewrite list_lookup_insert_eq by exact Hb. reflexivity.
Qed.

Lemma backing_alloc h s b :
  (GoSlice.base s < length h)%nat ->
  GoSlice.backing (h ++ [b]) s = GoSlice.backing h s.
Proof.
  intros Hb. unfold GoSlice.backing.
  rewrite lookup_app_l by exact Hb. reflexivity.
Qed.

(** The slice [append] returns shows the old elements and the new one. *)
Lemma append_view h s (v : A) :
  GoSlice.wf h s ->
  GoSlice.view (fst (GoSlice.append zeroValue growCap h s v))
               (snd (GoSlice.append zeroValue growCap h s v))
  = GoSlice.view h s ++ [v].
Proof.
  intros Hwf. pose proof (view_length h s Hwf) as Hvl.
  destruct Hwf as (Hb & Hcap & Hlen).
  unfold GoSlice.append.
  destruct (Nat.ltb_spec (GoSlice.len s) (GoSlice.cap s)) as [Hroom | Hfull]; simpl.
  - unfold GoSlice.view at 1. simpl.
    change (GoSlice.backing _ {| GoSlice.base := GoSlice.base s; GoSlice.off := GoSlice.off s;
                                 GoSlice.len := S (GoSlice.len s); GoSlice.cap := GoSlice.cap s |})
      with (GoSlice.backing (<[GoSlice.base s :=
              <[(GoSlice.off s + GoSlice.len s)%nat := v]> (GoSlice.backing h s)]> h) s).
    rewrite backing_insert by exact Hb.
    apply window_insert_at. lia.
  - unfold GoSlice.view at 1, GoSlice.backing at 1. simpl.
    rewrite lookup_app_r by lia. rewrite Nat.sub_diag. simpl.
    rewrite drop_0.
    rewrite (cons_middle v), app_assoc.
    apply take_app_length'. rewrite length_app, Hvl. simpl. lia.
Qed.

(** The slice passed to [append] shows what it showed before. *)
Lemma append_keeps_view h s (v : A) :
  GoSlice.wf h s ->
  GoSlice.view (fst (GoSlice.append zeroValue growCap h s v)) s = GoSlice.view h s.
Proof.
  intros (Hb & Hcap & Hlen). unfold GoSlice.append.
  destruct (Nat.ltb_spec (GoSlice.len s) (GoSlice.cap s)) as [Hroom | Hfull]; simpl.
  - unfold GoSlice.view. rewrite backing_insert by exact Hb.
    apply window_insert_behind.
  - unfold GoSlice.view. rewrite backing_alloc by exact Hb. reflexivity.
Qed.

Lemma sliceFrom_wf h s (start : nat) s' :
  GoSlice.wf h s -> GoSlice.sliceFrom s start = Some s' -> GoSlice.wf h s'.
Proof.
  intros (Hb & Hcap & Hlen). unfold GoSlice.sliceFrom.
  destruct (Nat.leb_spec start (GoSlice.len s)) as [Hle | Hgt]; [| discriminate].
  intros [= <-]. unfold GoSlice.wf, GoSlice.backing in *. simpl. lia.
Qed.

Lemma sliceFrom_view h s (start : nat) s' :
  GoSlice.wf h s -> GoSlice.sliceFrom s start = Some s' ->
  GoSlice.view h s' = drop start (GoSlice.view h s).
Proof.
  intros (Hb & Hcap & Hlen). unfold GoSlice.sliceFrom.
  destruct (Nat.leb_spec start (GoSlice.len s)) as [Hle | Hgt]; [| discriminate].
  intros [= <-]. unfold GoSlice.view, GoSlice.backing. simpl.
  apply list_eq. intros i. rewrite (lookup_drop (take _ _)).
  destruct (decide (i < GoSlice.len s - start)%nat) as [Hlt | Hge].
  - rewrite !lookup_take_lt by lia. rewrite !lookup_drop. f_equal. lia.
  - rewrite !lookup_take_ge by lia. reflexivity.
Qed.

(** The series [fifo] returns shows what [fifo] on contents computes, and
    the two panic together. *)
Lemma fifo_view h s (v : A) (size : Z) :
  GoSlice.wf h s ->
  (fun r => GoSlice.view (fst r) (snd r)) <$> GoSlice.fifo zeroValue growCap h s v size
  = fifo (GoSlice.view h s) v size.
Proof.
  intros Hwf. pose proof (view_length h s Hwf) as Hvl.
  unfold GoSlice.fifo, fifo. rewrite Hvl.
  destruct (size =? 0); [reflexivity |].
  set (start := if Z.of_nat (GoSlice.len s) >=? size then 1%nat else 0%nat).
  unfold sliceFrom. rewrite Hvl.
  destruct (GoSlice.sliceFrom s start) as [s' |] eqn:Hs.
  - pose proof (sliceFrom_wf _ _ _ _ Hwf Hs) as Hwf'.
    pose proof (sliceFrom_view _ _ _ _ Hwf Hs) as Hv'.
    unfold GoSlice.sliceFrom in Hs.
    destruct (Nat.leb_spec start (GoSlice.len s)) as [Hle | Hgt]; [| discriminate].
    simpl. rewrite append_view by exact Hwf'. rewrite Hv'. reflexivity.
  - unfold GoSlice.sliceFrom in Hs.
    destruct (Nat.leb_spec start (GoSlice.len s)) as [Hle | Hgt]; [discriminate |].
    reflexivity.
Qed.

(** The slice passed to [fifo] shows what it showed before, whatever the
    call returns. *)
Lemma fifo_keeps_view h s (v : A) (size : Z) r :
  GoSlice.wf h s ->
  GoSlice.fifo zeroValue growCap h s v size = Some r ->
  GoSlice.view (fst r) s = GoSlice.view h s.
Proof.
  intros Hwf. unfold GoSlice.fifo.
  destruct (size =? 0); [intros [= <-]; reflexivity |].
  set (start := if Z.of_nat (GoSlice.len s) >=? size then 1%nat else 0%nat).
  destruct (GoSlice.sliceFrom s start) as [s' |] eqn:Hs; [| discriminate].
  simpl. intros [= <-].
  pose proof (sliceFrom_wf _ _ _ _ Hwf Hs) as Hwf'.
  destruct Hwf as (Hb & Hcap & Hlen).
  unfold GoSlice.sliceFrom in Hs.
  destruct (Nat.leb_spec start (GoSlice.len s)) as [Hle | Hgt]; [| discriminate].
  injection Hs as <-.
  unfold GoSlice.append. simpl.
  destruct (Nat.ltb_spec (GoSlice.len s - start) (GoSlice.cap s - start)) as [Hroom | Hfull]; simpl.
  - unfold GoSlice.view. rewrite backing_insert by exact Hb.
    replace (GoSlice.off s + start + (GoSlice.len s - start))%nat
      with (GoSlice.off s + GoSlice.len s)%nat by lia.
    apply window_insert_behind.
  - unfold GoSlice.view. rewrite backing_alloc by exact Hb. reflexivity.
Qed.

Lemma make_wf h (n c : nat) :
  (n <= c)%nat -> GoSlice.wf (fst (GoSlice.make zeroValue h n c))
                             (snd (GoSlice.make zeroValue h n c)).
Proof.
  intros Hle. unfold GoSlice.make, GoSlice.wf, GoSlice.backing. simpl.
  rewrite length_app. simpl.
  rewrite lookup_app_r by lia. rewrite Nat.sub_diag. simpl.
  rewrite length_replicate. lia.
Qed.

End SliceFacts.

(** ** Starting the watcher *)

Lemma cpuSeed_value (ncpus cMin cMax : Z) :
  ncpus <> 0 ->
  cpuSeed ncpus cMin cMax =
    Some (f64_of_Z (GoInt.quot (GoInt.quot (GoInt.add cMin cMax) 2) ncpus)).
Proof.
  intros Hn. unfold cpuSeed, sdiv.
  destruct (Z.eqb_spec ncpus 0); [congruence | reflexivity].
Qed.

(** Whatever series the observor holds, [startRoutine] leaves what it
    shows unchanged. *)
Lemma startRoutine_percent_keeps_view (growCap : nat -> nat -> nat)
    (h h' : list (list float64)) (percent : GoSlice.slice) (ncpus cMin cMax limit : Z) :
  GoSlice.wf h percent ->
  startRoutine_percent growCap h percent ncpus cMin cMax limit = Some h' ->
  GoSlice.view h' percent = GoSlice.view h percent.
Proof.
  intros Hwf. unfold startRoutine_percent.
  destruct (negb (cMin =? 0) && negb (cMax =? 0)); [| intros [= <-]; reflexivity].
  destruct (cpuSeed ncpus cMin cMax) as [seed |]; [| discriminate]. simpl.
  destruct (GoSlice.fifo GoFloat.zero growCap h percent seed limit) as [r |] eqn:Hfifo;
    [| discriminate].
  simpl. intros [= <-].
  exact (fifo_keeps_view _ _ _ _ _ _ _ Hwf Hfifo).
Qed.

(** C7 (the code differs). [startRoutine] passes the midpoint of the
    baseline, divided by the core count, to [fifoFloat] and drops the slice
    it returns: on the series [NewObservor] made, the call succeeds and the
    series of the observor is as empty as before. *)
Theorem startRoutine_seed_not_stored (growCap : nat -> nat -> nat)
    (h0 : list (list float64)) (size : nat) (ncpus cMin cMax limit : Z) :
  cMin <> 0 -> cMax <> 0 -> ncpus <> 0 -> 0 <= limit ->
  let h := fst (GoSlice.make GoFloat.zero h0 0 size) in
  let percent := snd (GoSlice.make GoFloat.zero h0 0 size) in
  exists seed h',
    cpuSeed ncpus cMin cMax = Some seed /\
    startRoutine_percent growCap h percent ncpus cMin cMax limit = Some h' /\
    GoSlice.view h' percent = [].
Proof.
  intros HcMin HcMax Hn Hlimit h percent.
  assert (Hwf : GoSlice.wf h percent) by (apply make_wf; lia).
  assert (Hview : GoSlice.view h percent = []) by reflexivity.
  eexists. rewrite cpuSeed_value by exact Hn.
  unfold startRoutine_percent. rewrite cpuSeed_value by exact Hn.
  destruct (Z.eqb_spec cMin 0); [congruence |].
  destruct (Z.eqb_spec cMax 0); [congruence |].
  simpl.
  destruct (GoSlice.fifo GoFloat.zero growCap h percent _ limit) as [r |] eqn:Hfifo.
  - exists (fst r). split; [reflexivity |]. split; [reflexivity |].
    rewrite (fifo_keeps_view _ _ _ _ _ _ _ Hwf Hfifo). exact Hview.
  - exfalso. revert Hfifo. unfold GoSlice.fifo.
    destruct (Z.eqb_spec limit 0); [discriminate |].
    destruct (Z.geb_spec (Z.of_nat (GoSlice.len percent)) limit) as [Hge | Hlt].
    + simpl in Hge. lia.
    + discriminate.
Qed.

Lemma startRoutine_seed_not_stored_witness :
  exists seed h',
    cpuSeed 2 60 70 = Some seed /\
    startRoutine_percent (fun old need => (2 * old)%nat)
      (fst (GoSlice.make GoFloat.zero [] 0 10))
      (snd (GoSlice.make GoFloat.zero [] 0 10)) 2 60 70 10 = Some h' /\
    GoSlice.view h' (snd (GoSlice.make GoFloat.zero [] 0 10)) = [].
Proof.
  apply (startRoutine_seed_not_stored (fun old need => (2 * old)%nat) [] 10 2 60 70 10);
    lia.
Defined.

(** The seed is written behind the window of the series, where the next
    push overwrites it. *)
Lemma startRoutine_seed_behind_window :
  startRoutine_percent (fun old need => (2 * old)%nat)
    (fst (GoSlice.make GoFloat.zero [] 0 3))
    (snd (GoSlice.make GoFloat.zero [] 0 3)) 2 60 70 3
  = Some [[f64_of_Z 32; GoFloat.zero; GoFloat.zero]].
Proof. reflexivity. Qed.

(** On contents: [startRoutine] leaves the CPU percent series as it was. *)
Lemma startRoutine_keeps_percent (w w' : Watcher) (ncpus cMin cMax : Z) :
  startRoutine w ncpus cMin cMax = Some w' ->
  cpu_percent (CPU (Obs w')) = cpu_percent (CPU (Obs w)) /\ started w' = true.
Proof.
  unfold startRoutine.
  destruct (negb (cMin =? 0) && negb (cMax =? 0)).
  - destruct (cpuSeed ncpus cMin cMax) as [seed |]; [| discriminate]. simpl.
    destruct (fifoFloat _ seed (Limit w)); [| discriminate]. simpl.
    intros [= <-]. simpl. destruct (IsActivated (Config w) catCPU); split; reflexivity.
  - intros [= <-]. simpl. destruct (IsActivated (Config w) catCPU); split; reflexivity.
Qed.

(** ** Extremes *)

Lemma getExtremeValues_below (usage lowest highest : Z) :
  usage < lowest -> getExtremeValues usage lowest highest = (usage, highest).
Proof.
  intros H. unfold getExtremeValues.
  destruct (Z.ltb_spec usage lowest); [reflexivity | lia].
Qed.

Lemma trackExtremes_decreasing (samples : list Z) (u0 highest : Z) :
  decreasing u0 samples ->
  trackExtremes u0 highest samples = (default u0 (last samples), highest).
Proof.
  revert u0. induction samples as [| u rest IH]; intros u0 Hdec; [reflexivity |].
  destruct Hdec as [Hlt Hdec]. cbn [trackExtremes].
  rewrite getExtremeValues_below by exact Hlt.
  rewrite IH by exact Hdec. rewrite last_cons.
  destruct (last rest); reflexivity.
Qed.

(** ** The amplitude of a window *)

(** C3 (the code differs). The division of line 491 has no guard: at a
    window boundary whose lowest value is 0, and a sample that does not
    lower it, the memory branch panics. *)
Theorem memoryBranch_zero_lowest_panics
    (limit mUsage : Z) (v : MemoryVars) (ts : TimeSerieRAM) (ar : MemoryAR) :
  0 <= mUsage -> w_lowest v = 0 -> limit <= w_memoryTurn v ->
  memoryBranch limit mUsage v ts ar = None.
Proof.
  intros Hu Hlow Hturn. unfold memoryBranch.
  destruct (processMemoryStats mUsage (w_min v) (w_max v) (w_threshold v)) as [min max].
  assert (Hex : exists highest,
             getExtremeValues mUsage (w_lowest v) (w_highest v) = (0, highest)).
  { unfold getExtremeValues. rewrite Hlow.
    destruct (Z.ltb_spec mUsage 0); [lia |].
    destruct (mUsage >? w_highest v); eauto. }
  destruct Hex as [highest ->].
  destruct (fifoUint (ram_min ts) _ limit); [| reflexivity]. simpl.
  destruct (fifoUint (ram_max ts) _ limit); [| reflexivity]. simpl.
  destruct (fifoUint (ram_usage ts) _ limit); [| reflexivity]. simpl.
  destruct (Z.geb_spec (w_memoryTurn v) limit); [| lia].
  unfold memoryWindow. simpl.
  destruct (fifoUint (ram_highest ts) _ limit); [| reflexivity]. simpl.
  destruct (fifoUint (ram_lowest ts) _ limit); reflexivity.
Qed.

Lemma memoryBranch_zero_lowest_panics_witness :
  memoryBranch 1 7
    {| w_min := 10000; w_max := 20000; w_threshold := 30;
       w_lowest := 0; w_highest := 0; w_memoryTurn := 1 |}
    (RAM emptyObservor)
    {| nmin := 0; nmax := 0; opti := 0; usage := 0 |} = None.
Proof.
  apply memoryBranch_zero_lowest_panics; simpl; lia.
Defined.

(** The same on a whole run: a first sample with usage 0 seeds [lowest]
    with 0, and the watcher panics at the end of its first window. *)
Lemma Watch_zero_usage_panics :
  run (watchStart emptyObservor 1 [catMemory] (10000, 20000, 30) (0, 0) noDerived)
      [ {| MemoryUsage := 0; TotalUsage := 100; SystemUsage := 1000; OnlineCPUs := 2 |};
        {| MemoryUsage := 7; TotalUsage := 200; SystemUsage := 2000; OnlineCPUs := 2 |} ]
  = None.
Proof. vm_compute. reflexivity. Qed.

(** ** The per-category dispatch *)

Lemma IsActivated_elem (config : list string) (category : string) :
  IsActivated config category = true <-> category ∈ config.
Proof. unfold IsActivated. apply bool_decide_eq_true. Qed.

Lemma addCategory_elem (config : list string) (category c : string) :
  c ∈ config -> c ∈ addCategory config category.
Proof.
  intros Hin. unfold addCategory.
  destruct (IsActivated config category); [exact Hin |].
  apply elem_of_app. left. exact Hin.
Qed.

Lemma addCategory_NoDup (config : list string) (category : string) :
  NoDup config -> NoDup (addCategory config category).
Proof.
  intros Hnd. unfold addCategory.
  destruct (IsActivated config category) eqn:Hact; [exact Hnd |].
  apply NoDup_app. split; [exact Hnd |]. split.
  - intros c Hc Hc'. apply list_elem_of_singleton in Hc' as ->.
    apply IsActivated_elem in Hc. congruence.
  - apply NoDup_singleton.
Qed.

Lemma continueIteration_true (category value : string) (done : bool) :
  continueIteration category value done = true <-> category = value /\ done = false.
Proof.
  unfold continueIteration. rewrite andb_true_iff, String.eqb_eq, negb_true_iff.
  reflexivity.
Qed.

Lemma memoryBranch_inside_window
    (limit mUsage : Z) (v : MemoryVars) (ts : TimeSerieRAM) (ar : MemoryAR) :
  0 < limit -> w_memoryTurn v < limit ->
  exists v' ts', memoryBranch limit mUsage v ts ar = Some (v', ts', ar).
Proof.
  intros Hl Hturn. unfold memoryBranch.
  destruct (processMemoryStats mUsage (w_min v) (w_max v) (w_threshold v)) as [min max].
  destruct (getExtremeValues mUsage (w_lowest v) (w_highest v)) as [lowest highest].
  unfold fifoUint. rewrite !fifo_step by exact Hl. simpl.
  destruct (Z.geb_spec (w_memoryTurn v) limit); [lia |].
  eauto.
Qed.

Lemma cpuBranch_inside_window
    (limit : Z) (input : Sample) (v : CPUVars) (ts : TimeSerieCPU) (ar : CpuAR) :
  0 < limit -> w_cpuTurn v < limit ->
  cpuBranch limit input v ts ar =
    Some ({| w_oldUsage := TotalUsage input; w_oldSystem := SystemUsage input;
             w_cpuTurn := GoInt.add (w_cpuTurn v) 1 |},
          {| cpu_percent :=
               (if Z.of_nat (length (cpu_percent ts)) >=? limit
                then drop 1 (cpu_percent ts) else cpu_percent ts)
               ++ [cpuPercent input v];
             cpu_usage :=
               (if Z.of_nat (length (cpu_usage ts)) >=? limit
                then drop 1 (cpu_usage ts) else cpu_usage ts)
               ++ [cpuDeltaUsage input v];
             predicted_percent := predicted_percent ts;
             predicted_usage := predicted_usage ts;
             CPUPrediction := CPUPrediction ts |},
          ar).
Proof.
  intros Hl Hturn. unfold cpuBranch, fifoFloat.
  rewrite !fifo_step by exact Hl. simpl.
  destruct (Z.geb_spec (w_cpuTurn v) limit); [lia | reflexivity].
Qed.

Lemma memoryStep_inside_window (w : Watcher) (input : Sample) :
  0 < Limit w -> w_memoryTurn (memoryVars w) < Limit w ->
  exists w1, memoryStep w input = Some w1 /\
             CPU (Obs w1) = CPU (Obs w) /\ cpuVars w1 = cpuVars w /\
             Limit w1 = Limit w.
Proof.
  intros Hl Hturn. unfold memoryStep.
  destruct (memoryBranch_inside_window (Limit w) (MemoryUsage input)
              (memoryVars w) (RAM (Obs w)) (memoryAR w) Hl Hturn) as (v' & ts' & ->).
  simpl. eexists. repeat split.
Qed.

Lemma cpuStep_inside_window (w : Watcher) (input : Sample) :
  0 < Limit w -> w_cpuTurn (cpuVars w) < Limit w ->
  exists w1, cpuStep w input = Some w1 /\
             cpu_percent (CPU (Obs w1)) = pushedPercent w input /\
             cpuVars w1 = seededVars w input /\
             memoryVars w1 = memoryVars w /\ Limit w1 = Limit w.
Proof.
  intros Hl Hturn. unfold cpuStep.
  rewrite cpuBranch_inside_window by assumption.
  simpl. eexists. repeat split.
Qed.

Section Dispatch.
Variable input : Sample.

(** Categories other than ["cpu%"] leave the CPU series and variables. *)
Lemma dispatchOn_without_cpu (categories : list string) (w : Watcher) :
  catCPU ∉ categories -> NoDup categories -> 0 < Limit w ->
  catMemory ∉ categories \/ w_memoryTurn (memoryVars w) < Limit w ->
  exists w', dispatchOn categories w input = Some w' /\
             CPU (Obs w') = CPU (Obs w) /\ cpuVars w' = cpuVars w.
Proof.
  revert w.
  induction categories as [| c rest IH]; intros w Hcpu Hnd Hl Hmem.
  - exists w. repeat split.
  - apply not_elem_of_cons in Hcpu as [Hc Hcpu].
    apply NoDup_cons in Hnd as [Hfresh Hnd].
    cbn [dispatchOn]. unfold categoryStep.
    destruct (continueIteration c catMemory _) eqn:Hcm.
    + apply continueIteration_true in Hcm as [-> _].
      destruct Hmem as [Hmem | Hturn].
      { exfalso. apply Hmem. left. }
      destruct (memoryStep_inside_window w input Hl Hturn)
        as (w1 & -> & Hcpu1 & Hvars1 & Hl1).
      simpl.
      destruct (IH w1 Hcpu Hnd ltac:(lia) (or_introl Hfresh))
        as (w' & Hd & Hcpu' & Hvars').
      exists w'. rewrite Hd, Hcpu', Hvars', Hcpu1, Hvars1. repeat split.
    + destruct (continueIteration c catCPU _) eqn:Hcc.
      { apply continueIteration_true in Hcc as [-> _]. congruence. }
      simpl. apply IH; try assumption.
      destruct Hmem as [Hmem | Hturn]; [left | right; exact Hturn].
      intros Hin. apply Hmem. right. exact Hin.
Qed.

(** A tick inside the window of an active CPU category pushes the percent
    of the sample against the previous values, then stores the sample's
    values as the previous ones, whatever the order of the categories. *)
Lemma dispatchOn_cpu_inside_window (categories : list string) (w : Watcher) :
  catCPU ∈ categories -> NoDup categories -> 0 < Limit w ->
  catMemory ∉ categories \/ w_memoryTurn (memoryVars w) < Limit w ->
  w_cpuTurn (cpuVars w) < Limit w ->
  CPUPrediction (CPU (Obs w)) = false ->
  exists w', dispatchOn categories w input = Some w' /\
             cpu_percent (CPU (Obs w')) = pushedPercent w input /\
             cpuVars w' = seededVars w input.
Proof.
  revert w.
  induction categories as [| c rest IH]; intros w Hcpu Hnd Hl Hmem Hturn Hpred.
  - inversion Hcpu.
  - apply NoDup_cons in Hnd as [Hfresh Hnd].
    cbn [dispatchOn]. unfold categoryStep.
    destruct (continueIteration c catMemory _) eqn:Hcm.
    + apply continueIteration_true in Hcm as [-> _].
      apply elem_of_cons in Hcpu as [Habs | Hcpu]; [discriminate |].
      destruct Hmem as [Hmem | Hmturn].
      { exfalso. apply Hmem. left. }
      destruct (memoryStep_inside_window w input Hl Hmturn)
        as (w1 & -> & Hcpu1 & Hvars1 & Hl1).
      simpl.
      destruct (IH w1 Hcpu Hnd ltac:(lia) (or_introl Hfresh)) as (w' & Hd & Hp & Hv).
      * rewrite Hvars1, Hl1. exact Hturn.
      * rewrite Hcpu1. exact Hpred.
      * exists w'. split; [exact Hd |].
        rewrite Hp, Hv. unfold pushedPercent, seededVars.
        rewrite Hcpu1, Hvars1, Hl1. split; reflexivity.
    + destruct (continueIteration c catCPU _) eqn:Hcc.
      * apply continueIteration_true in Hcc as [-> _].
        destruct (cpuStep_inside_window w input Hl Hturn)
          as (w1 & -> & Hp1 & Hv1 & Hm1 & Hl1).
        simpl.
        destruct (dispatchOn_without_cpu rest w1 Hfresh Hnd ltac:(lia))
          as (w' & Hd & Hcpu' & Hvars').
        { rewrite Hm1, Hl1.
          destruct Hmem as [Hmem | Hmturn]; [left | right; exact Hmturn].
          intros Hin. apply Hmem. right. exact Hin. }
        exists w'. rewrite Hd, Hcpu', Hvars'. repeat split; assumption.
      * simpl.
        assert (Hne : c <> catCPU).
        { intros ->. unfold continueIteration in Hcc.
          rewrite String.eqb_refl, Hpred in Hcc. discriminate. }
        apply elem_of_cons in Hcpu as [Habs | Hcpu]; [congruence |].
        apply IH; try assumption.
        destruct Hmem as [Hmem | Hmturn]; [left | right; exact Hmturn].
        intros Hin. apply Hmem. right. exact Hin.
Qed.

End Dispatch.

(** ** The first tick *)

Lemma startRoutine_returns (w : Watcher) (ncpus cMin cMax : Z) :
  0 < Limit w -> cMin = 0 \/ cMax = 0 \/ ncpus <> 0 ->
  startRoutine w ncpus cMin cMax = Some (markStarted w).
Proof.
  intros Hl Hc. unfold startRoutine.
  destruct (Z.eqb_spec cMin 0); [reflexivity |].
  destruct (Z.eqb_spec cMax 0); [reflexivity |].
  simpl. rewrite cpuSeed_value by (destruct Hc as [? | [? | ?]]; congruence).
  simpl. unfold fifoFloat. rewrite fifo_step by exact Hl. reflexivity.
Qed.

Lemma watchStart_cpu (obs : Observor) (limit : Z) (config : list string)
    (memory : Z * Z * Z) (cMin cMax : Z) (derived : MemoryAR * CpuAR) :
  NoDup config -> catCPU ∈ config ->
  let w := watchStart obs limit config memory (cMin, cMax) derived in
  Obs w = obs /\ Limit w = limit /\ NoDup (Config w) /\ catCPU ∈ Config w /\
  started w = false /\ cpuMin w = cMin /\ cpuMax w = cMax /\
  cpuVars w = {| w_oldUsage := 0; w_oldSystem := 0; w_cpuTurn := 0 |} /\
  w_memoryTurn (memoryVars w) = 0.
Proof.
  intros Hnd Hin. unfold watchStart.
  destruct (baseValueMemory config memory) as [[[min max] threshold] config1] eqn:Hm.
  assert (Hc1 : NoDup config1 /\ catCPU ∈ config1).
  { unfold baseValueMemory in Hm.
    destruct (IsActivated config catMemory); destruct memory as [[a b] c];
      injection Hm as <- <- <- <-; split;
      auto using addCategory_NoDup, addCategory_elem. }
  destruct Hc1 as [Hnd1 Hin1].
  unfold baseValueCPU.
  rewrite (proj2 (IsActivated_elem config1 catCPU) Hin1).
  simpl. repeat split; auto using addCategory_NoDup, addCategory_elem.
Qed.

(** C6 (as amended). On the first tick of a watcher whose ["cpu%"]
    category is active, the previous cumulative values are still 0: the CPU
    branch computes a percent from the sample alone,
    [(usage - 0) / (system - 0) * cores * 100], pushes it as the first
    element of the CPU percent series, and then stores the sample's
    cumulative values as the previous ones. *)
Theorem first_tick_pushes_cpu_percent
    (size limit : Z) (config : list string) (memory : Z * Z * Z) (cMin cMax : Z)
    (derived : MemoryAR * CpuAR) (obs : Observor) (input : Sample) :
  NewObservor size = Some obs ->
  NoDup config -> catCPU ∈ config ->
  0 < limit -> cMin = 0 \/ cMax = 0 \/ OnlineCPUs input <> 0 ->
  let w := watchStart obs limit config memory (cMin, cMax) derived in
  let deltaUsage := f64_sub (f64_of_Z (TotalUsage input)) (f64_of_Z 0) in
  let deltaSystem := f64_sub (f64_of_Z (SystemUsage input)) (f64_of_Z 0) in
  exists w',
    tick w false true input = Some (Continue w') /\
    cpu_percent (CPU (Obs w')) =
      [f64_mul (f64_mul (f64_div deltaUsage deltaSystem) (f64_of_Z (OnlineCPUs input)))
               (f64_of_Z 100)] /\
    cpuVars w' =
      {| w_oldUsage := TotalUsage input; w_oldSystem := SystemUsage input;
         w_cpuTurn := 1 |}.
Proof.
  intros Hnew Hnd Hin Hl Hc w deltaUsage deltaSystem.
  assert (Hempty : obs = emptyObservor).
  { unfold NewObservor in Hnew. destruct (size <? 0); congruence. }
  destruct (watchStart_cpu obs limit config memory cMin cMax derived Hnd Hin)
    as (Hobs & HL & Hnd' & Hin' & Hstart & HcMin & HcMax & Hvars & Hturn).
  fold w in Hobs, HL, Hnd', Hin', Hstart, HcMin, HcMax, Hvars, Hturn.
  clearbody w.
  unfold tick. simpl isInBadState. cbv iota.
  rewrite Hstart, HcMin, HcMax. simpl negb. cbv iota.
  rewrite startRoutine_returns by (simpl; rewrite ?HL; assumption).
  simpl. unfold dispatch.
  set (w1 := markStarted (setLowest w (MemoryUsage input))).
  assert (H1 : Config w1 = Config w /\ Limit w1 = limit /\
               cpuVars w1 = {| w_oldUsage := 0; w_oldSystem := 0; w_cpuTurn := 0 |} /\
               w_memoryTurn (memoryVars w1) = 0 /\
               cpu_percent (CPU (Obs w1)) = [] /\
               CPUPrediction (CPU (Obs w1)) = false).
  { subst w1. unfold markStarted. simpl.
    rewrite (proj2 (IsActivated_elem (Config w) catCPU) Hin'). simpl.
    rewrite Hobs, HL, Hvars, Hturn, Hempty. repeat split. }
  destruct H1 as (Hcfg1 & HL1 & Hvars1 & Hturn1 & Hpercent1 & Hpred1).
  clearbody w1.
  destruct (dispatchOn_cpu_inside_window input (Config w1) w1) as (w' & Hd & Hp & Hv).
  - rewrite Hcfg1. exact Hin'.
  - rewrite Hcfg1. exact Hnd'.
  - lia.
  - right. lia.
  - rewrite Hvars1. simpl. lia.
  - exact Hpred1.
  - exists w'. rewrite Hd. split; [reflexivity |].
    rewrite Hp, Hv. unfold pushedPercent, seededVars.
    rewrite Hpercent1, Hvars1, HL1.
    destruct (Z.geb_spec (Z.of_nat (length (@nil float64))) limit) as [Hge | _].
    { simpl in Hge. lia. }
    split; reflexivity.
Qed.

Lemma first_tick_pushes_cpu_percent_witness :
  exists w',
    NewObservor 10 = Some emptyObservor /\
    tick (watchStart emptyObservor 10 [catCPU] (0, 0, 0) (60, 70) noDerived) false true
      {| MemoryUsage := 50000; TotalUsage := 100; SystemUsage := 1000; OnlineCPUs := 2 |}
    = Some (Continue w') /\
    cpu_percent (CPU (Obs w')) = [f64_of_Z 20] /\
    cpuVars w' = {| w_oldUsage := 100; w_oldSystem := 1000; w_cpuTurn := 1 |}.
Proof.
  destruct (first_tick_pushes_cpu_percent 10 10 [catCPU] (0, 0, 0) 60 70 noDerived
              emptyObservor
              {| MemoryUsage := 50000; TotalUsage := 100; SystemUsage := 1000;
                 OnlineCPUs := 2 |}) as (w' & Ht & Hp & Hv).
  - reflexivity.
  - apply NoDup_singleton.
  - left.
  - lia.
  - right. right. simpl. lia.
  - exists w'. split; [reflexivity |]. split; [exact Ht |]. split; [| exact Hv].
    rewrite Hp. vm_compute. reflexivity.
Defined.

(** C6 (as stated) fails: the first tick of a watcher of the CPU category
    leaves one percent, 20, in the CPU series. *)
Lemma first_tick_cpu_series_not_empty :
  (fun r => match r with
            | Continue w' => cpu_percent (CPU (Obs w'))
            | _ => []
            end)
    <$> (NewObservor 10 ≫= fun obs =>
         tick (watchStart obs 10 [catCPU] (0, 0, 0) (0, 0) noDerived) false true
           {| MemoryUsage := 50000; TotalUsage := 100; SystemUsage := 1000;
              OnlineCPUs := 2 |})
  = Some [f64_of_Z 20].
Proof. vm_compute. reflexivity. Qed.

(** ** The order of the categories

    [range] visits the keys of a map in an unspecified order; the two
    branches work on disjoint variables and series, so every order gives the
    same tick. *)

Section CategoryOrder.
Variable input : Sample.

Lemma memoryStep_frame (w w1 : Watcher) :
  memoryStep w input = Some w1 -> CPU (Obs w1) = CPU (Obs w).
Proof.
  unfold memoryStep.
  destruct (memoryBranch _ _ _ _ _) as [[[v ts] ar] |]; [| discriminate].
  simpl. intros [= <-]. reflexivity.
Qed.

Lemma cpuStep_frame (w w1 : Watcher) :
  cpuStep w input = Some w1 -> RAM (Obs w1) = RAM (Obs w).
Proof.
  unfold cpuStep.
  destruct (cpuBranch _ _ _ _ _) as [[[v ts] ar] |]; [| discriminate].
  simpl. intros [= <-]. reflexivity.
Qed.

Lemma memoryStep_cpuStep_commute (w : Watcher) :
  (w1 ← memoryStep w input; cpuStep w1 input) =
  (w1 ← cpuStep w input; memoryStep w1 input).
Proof.
  unfold memoryStep, cpuStep.
  destruct (memoryBranch (Limit w) (MemoryUsage input) (memoryVars w)
              (RAM (Obs w)) (memoryAR w)) as [[[v ts] ar] |] eqn:Hm;
    destruct (cpuBranch (Limit w) input (cpuVars w) (CPU (Obs w)) (cpuAR w))
      as [[[v' ts'] ar'] |] eqn:Hc;
    simpl; rewrite ?Hm, ?Hc; reflexivity.
Qed.

Lemma categoryStep_commute (a b : string) (w : Watcher) :
  (w1 ← categoryStep a w input; categoryStep b w1 input) =
  (w1 ← categoryStep b w input; categoryStep a w1 input).
Proof.
  destruct (decide (a = b)) as [-> | Hab]; [reflexivity |].
  pose proof (memoryStep_cpuStep_commute w) as Hcomm.
  unfold categoryStep, continueIteration.
  destruct (String.eqb_spec a catMemory) as [Ham | Ham];
    destruct (String.eqb_spec b catMemory) as [Hbm | Hbm];
    destruct (String.eqb_spec a catCPU) as [Hac | Hac];
    destruct (String.eqb_spec b catCPU) as [Hbc | Hbc];
    try congruence; simpl;
    destruct (MemoryPrediction (RAM (Obs w))) eqn:HM;
    destruct (CPUPrediction (CPU (Obs w))) eqn:HC; simpl;
    rewrite ?HM, ?HC; simpl;
    try reflexivity;
    try (destruct (memoryStep w input) as [w1 |] eqn:Hs; simpl; [| reflexivity];
         rewrite ?(memoryStep_frame _ _ Hs), ?HC; reflexivity);
    try (destruct (cpuStep w input) as [w1 |] eqn:Hs; simpl; [| reflexivity];
         rewrite ?(cpuStep_frame _ _ Hs), ?HM; reflexivity).
  - transitivity (w1 ← memoryStep w input; cpuStep w1 input).
    + destruct (memoryStep w input) as [w1 |] eqn:Hs; simpl; [| reflexivity].
      rewrite (memoryStep_frame _ _ Hs), HC. reflexivity.
    + rewrite Hcomm.
      destruct (cpuStep w input) as [w1 |] eqn:Hs; simpl; [| reflexivity].
      rewrite (cpuStep_frame _ _ Hs), HM. reflexivity.
  - transitivity (w1 ← cpuStep w input; memoryStep w1 input).
    + destruct (cpuStep w input) as [w1 |] eqn:Hs; simpl; [| reflexivity].
      rewrite (cpuStep_frame _ _ Hs), HM. reflexivity.
    + rewrite <- Hcomm.
      destruct (memoryStep w input) as [w1 |] eqn:Hs; simpl; [| reflexivity].
      rewrite (memoryStep_frame _ _ Hs), HC. reflexivity.
Qed.

Lemma dispatchOn_Permutation (l l' : list string) :
  Permutation l l' -> forall w, dispatchOn l w input = dispatchOn l' w input.
Proof.
  induction 1 as [| x l l' _ IH | x y l | l l' l'' _ IH1 _ IH2]; intros w.
  - reflexivity.
  - cbn [dispatchOn]. destruct (categoryStep x w input); simpl; [apply IH | reflexivity].
  - cbn [dispatchOn].
    pose proof (categoryStep_commute x y w) as Hcomm.
    destruct (categoryStep y w input) as [wy |]; destruct (categoryStep x w input) as [wx |];
      simpl in *.
    + destruct (categoryStep x wy input); destruct (categoryStep y wx input);
        simpl; congruence.
    + destruct (categoryStep x wy input); simpl in *; congruence.
    + destruct (categoryStep y wx input); simpl in *; congruence.
    + reflexivity.
  - rewrite IH1. apply IH2.
Qed.

End CategoryOrder.

(** ** The memory branch and the extremes of a window *)

(** Inside a window the branch keeps the extremes [getExtremeValues]
    returns and counts the tick. *)
Lemma memoryBranch_tracks_extremes
    (limit mUsage : Z) (v : MemoryVars) (ts : TimeSerieRAM) (ar : MemoryAR) :
  0 < limit -> w_memoryTurn v < limit ->
  exists v' ts',
    memoryBranch limit mUsage v ts ar = Some (v', ts', ar) /\
    (w_lowest v', w_highest v') = getExtremeValues mUsage (w_lowest v) (w_highest v) /\
    w_memoryTurn v' = GoInt.add (w_memoryTurn v) 1 /\
    ram_amplitude ts' = ram_amplitude ts.
Proof.
  intros Hl Hturn. unfold memoryBranch.
  destruct (processMemoryStats mUsage (w_min v) (w_max v) (w_threshold v)) as [min max].
  destruct (getExtremeValues mUsage (w_lowest v) (w_highest v)) as [lowest highest].
  unfold fifoUint. rewrite !fifo_step by exact Hl. simpl.
  destruct (Z.geb_spec (w_memoryTurn v) limit); [lia |].
  eexists _, _. repeat split.
Qed.

(** At the end of a window, when the branch returns, the amplitude it
    pushed is the quotient of the extremes, and the extremes are reset. *)
Lemma memoryBranch_records_amplitude
    (limit mUsage : Z) (v v' : MemoryVars) (ts ts' : TimeSerieRAM) (ar ar' : MemoryAR) :
  0 < limit -> limit <= w_memoryTurn v ->
  memoryBranch limit mUsage v ts ar = Some (v', ts', ar') ->
  let extremes := getExtremeValues mUsage (w_lowest v) (w_highest v) in
  last (ram_amplitude ts') = windowAmplitude (snd extremes) (fst extremes) /\
  fst extremes <> 0 /\
  w_lowest v' = mUsage /\ w_highest v' = 0 /\ w_memoryTurn v' = 0.
Proof.
  intros Hl Hturn. unfold memoryBranch.
  destruct (processMemoryStats mUsage (w_min v) (w_max v) (w_threshold v)) as [min max].
  destruct (getExtremeValues mUsage (w_lowest v) (w_highest v)) as [lowest highest].
  unfold fifoUint. rewrite !fifo_step by exact Hl. simpl.
  destruct (Z.geb_spec (w_memoryTurn v) limit); [| lia].
  unfold memoryWindow, fifoUint. rewrite !fifo_step by exact Hl. simpl.
  unfold windowAmplitude, GoInt.udiv.
  destruct (Z.eqb_spec lowest 0) as [-> | Hne]; [simpl; discriminate |].
  simpl. rewrite !fifo_step by exact Hl. simpl.
  repeat match goal with
         | |- (?m ≫= _) = Some _ -> _ => destruct m; simpl; [| discriminate]
         end.
  intros [= <- <- <-]. simpl. rewrite last_snoc. repeat split. exact Hne.
Qed.

(** The extremes of the window are what the branch pushes at its end. *)
Lemma memoryBranch_records_extremes
    (limit mUsage : Z) (v v' : MemoryVars) (ts ts' : TimeSerieRAM) (ar ar' : MemoryAR) :
  0 < limit -> limit <= w_memoryTurn v ->
  memoryBranch limit mUsage v ts ar = Some (v', ts', ar') ->
  let extremes := getExtremeValues mUsage (w_lowest v) (w_highest v) in
  last (ram_highest ts') = Some (snd extremes) /\
  last (ram_lowest ts') = Some (fst extremes).
Proof.
  intros Hl Hturn. unfold memoryBranch.
  destruct (processMemoryStats mUsage (w_min v) (w_max v) (w_threshold v)) as [min max].
  destruct (getExtremeValues mUsage (w_lowest v) (w_highest v)) as [lowest highest].
  unfold fifoUint. rewrite !fifo_step by exact Hl. simpl.
  destruct (Z.geb_spec (w_memoryTurn v) limit); [| lia].
  unfold memoryWindow, fifoUint. rewrite !fifo_step by exact Hl. simpl.
  destruct (windowAmplitude highest lowest) as [amplitude |]; [| discriminate].
  simpl. repeat (rewrite !fifo_step by exact Hl; simpl).
  repeat match goal with
         | |- (?m ≫= _) = Some _ -> _ => destruct m; simpl; [| discriminate]
         end.
  intros [= <- <- <-]. simpl. rewrite !last_snoc. split; reflexivity.
Qed.

Lemma memoryBranches_app (limit : Z) (l1 l2 : list Z) (v : MemoryVars)
    (ts : TimeSerieRAM) (ar : MemoryAR) :
  memoryBranches limit (l1 ++ l2) v ts ar =
    r ← memoryBranches limit l1 v ts ar;
    memoryBranches limit l2 r.1.1 r.1.2 r.2.
Proof.
  revert v ts ar. induction l1 as [| u rest IH]; intros v ts ar; [reflexivity |].
  cbn [app memoryBranches].
  destruct (memoryBranch limit u v ts ar) as [[[v1 ts1] ar1] |]; [| reflexivity].
  simpl. apply IH.
Qed.

(** The ticks inside a window return, count themselves and fold
    [getExtremeValues] over their samples. *)
Lemma memoryBranches_track (limit : Z) (samples : list Z) (v : MemoryVars)
    (ts : TimeSerieRAM) (ar : MemoryAR) :
  0 <= w_memoryTurn v ->
  w_memoryTurn v + Z.of_nat (length samples) <= limit ->
  limit <= GoInt.maxInt ->
  exists v' ts',
    memoryBranches limit samples v ts ar = Some (v', ts', ar) /\
    w_memoryTurn v' = w_memoryTurn v + Z.of_nat (length samples) /\
    (w_lowest v', w_highest v') = trackExtremes (w_lowest v) (w_highest v) samples.
Proof.
  revert v ts.
  induction samples as [| mUsage rest IH]; intros v ts Hturn Hlen Hmax.
  - exists v, ts. simpl. repeat split. lia.
  - cbn [length] in Hlen. cbn [memoryBranches].
    destruct (memoryBranch_tracks_extremes limit mUsage v ts ar ltac:(lia) ltac:(lia))
      as (v1 & ts1 & -> & Hext & Hturn1 & _).
    simpl.
    assert (Hturn1' : w_memoryTurn v1 = w_memoryTurn v + 1).
    { rewrite Hturn1. unfold GoInt.add. apply wrap_id.
      unfold GoInt.in_int, GoInt.minInt, GoInt.maxInt, GoInt.two63 in *. lia. }
    destruct (IH v1 ts1 ltac:(lia) ltac:(lia) Hmax) as (v' & ts' & Hr & Hturn' & Hext').
    exists v', ts'. split; [exact Hr |]. split; [lia |].
    rewrite Hext'. cbn [trackExtremes]. rewrite <- Hext. reflexivity.
Qed.

Lemma decreasing_snoc (prefix : list Z) (u0 final : Z) :
  decreasing u0 (prefix ++ [final]) ->
  decreasing u0 prefix /\ final < default u0 (last prefix).
Proof.
  revert u0. induction prefix as [| u rest IH]; intros u0; simpl.
  - intros [Hlt _]. split; [exact I | exact Hlt].
  - intros [Hlt Hdec]. destruct (IH u Hdec) as [Hrest Hfinal].
    split; [split; assumption |].
    rewrite last_cons. destruct (last rest); exact Hfinal.
Qed.

(** C10 (the code differs). [getExtremeValues] updates one extreme at most:
    a usage below [lowest] leaves [highest] as it was, even when the usage is
    above it. So from the reset [(highest, lowest) = (0, u0)], samples that
    keep decreasing below [u0] leave [highest] at 0 and the last sample as
    [lowest]. Over the [Limit + 1] ticks of the window that follows a reset:
    when the last sample is 0 the tick that ends the window panics on the
    division of line 491 and records nothing; and whenever the window
    returns, its last sample was not 0 and the values it recorded are
    highest 0, lowest the last sample, and amplitude 0. *)
Theorem getExtremeValues_one_extreme :
  (forall usage lowest highest,
     usage < lowest -> getExtremeValues usage lowest highest = (usage, highest)) /\
  (forall u0 samples,
     decreasing u0 samples ->
     trackExtremes u0 0 samples = (default u0 (last samples), 0)) /\
  (forall limit samples v ts ar,
     0 < limit <= GoInt.maxInt ->
     w_highest v = 0 -> w_memoryTurn v = 0 ->
     Z.of_nat (length samples) = limit + 1 ->
     decreasing (w_lowest v) samples ->
     let final := default (w_lowest v) (last samples) in
     (final = 0 -> memoryBranches limit samples v ts ar = None) /\
     (forall v' ts' ar',
        memoryBranches limit samples v ts ar = Some (v', ts', ar') ->
        final <> 0 /\
        last (ram_highest ts') = Some 0 /\
        last (ram_lowest ts') = Some final /\
        last (ram_amplitude ts') = Some 0)).
Proof.
  split; [exact getExtremeValues_below |].
  split; [intros u0 samples Hdec; apply trackExtremes_decreasing; exact Hdec |].
  intros limit samples v ts ar [Hl Hmax] Hhigh Hturn Hlen Hdec final.
  assert (Hret : forall v' ts' ar',
             memoryBranches limit samples v ts ar = Some (v', ts', ar') ->
             final <> 0 /\
             last (ram_highest ts') = Some 0 /\
             last (ram_lowest ts') = Some final /\
             last (ram_amplitude ts') = Some 0).
  { subst final.
    destruct samples as [| final prefix _] using rev_ind; [simpl in Hlen; lia |].
    rewrite length_app in Hlen. simpl in Hlen.
    apply decreasing_snoc in Hdec as [Hdec Hfinal].
    rewrite last_snoc. simpl.
    intros v' ts' ar'. rewrite memoryBranches_app.
    destruct (memoryBranches_track limit prefix v ts ar) as (v1 & ts1 & -> & Hturn1 & Hext);
      [lia | lia | exact Hmax |].
    rewrite Hhigh, (trackExtremes_decreasing prefix _ 0 Hdec) in Hext.
    injection Hext as Hlow1 Hhigh1.
    simpl.
    destruct (memoryBranch limit final v1 ts1 ar) as [[[v2 ts2] ar2] |] eqn:Hend;
      [| discriminate].
    simpl. intros [= <- <- <-].
    assert (Hext : getExtremeValues final (w_lowest v1) (w_highest v1) = (final, 0)).
    { rewrite Hlow1, Hhigh1. apply getExtremeValues_below. exact Hfinal. }
    destruct (memoryBranch_records_amplitude limit final v1 v2 ts1 ts2 ar ar2
                Hl ltac:(lia) Hend) as (Hamp & Hne & _).
    destruct (memoryBranch_records_extremes limit final v1 v2 ts1 ts2 ar ar2
                Hl ltac:(lia) Hend) as (Hhi & Hlo).
    rewrite Hext in Hamp, Hne, Hhi, Hlo. simpl in Hamp, Hne, Hhi, Hlo.
    split; [exact Hne |]. split; [exact Hhi |]. split; [exact Hlo |].
    rewrite Hamp. unfold windowAmplitude, GoInt.udiv.
    destruct (Z.eqb_spec final 0); [congruence | reflexivity]. }
  split; [| exact Hret].
  intros Hzero.
  destruct (memoryBranches limit samples v ts ar) as [[[v' ts'] ar'] |] eqn:Hr;
    [| reflexivity].
  destruct (Hret v' ts' ar' eq_refl) as [Hne _]. contradiction.
Qed.

Lemma getExtremeValues_one_extreme_witness :
  getExtremeValues 7 9 3 = (7, 3) /\
  trackExtremes 50000 0 [40000; 30000; 20000] = (20000, 0) /\
  memoryBranches 2 [5; 3; 0]
    {| w_min := 10000; w_max := 20000; w_threshold := 30;
       w_lowest := 7; w_highest := 0; w_memoryTurn := 0 |}
    (RAM emptyObservor) {| nmin := 0; nmax := 0; opti := 0; usage := 0 |} = None /\
  match
    memoryBranches 2 [40000; 30000; 20000]
      {| w_min := 55000; w_max := 60500; w_threshold := 10;
         w_lowest := 50000; w_highest := 0; w_memoryTurn := 0 |}
      (RAM emptyObservor) {| nmin := 0; nmax := 0; opti := 0; usage := 0 |}
  with
  | Some (_, ts', _) =>
      last (ram_highest ts') = Some 0 /\ last (ram_lowest ts') = Some 20000 /\
      last (ram_amplitude ts') = Some 0
  | None => False
  end.
Proof.
  destruct getExtremeValues_one_extreme as (H1 & H2 & H3).
  split; [apply H1; lia |].
  split; [apply (H2 50000 [40000; 30000; 20000]); simpl; lia |].
  split.
  - refine (proj1 (H3 2 [5; 3; 0] _ _ _ _ _ _ _ _) _);
      try reflexivity; [unfold GoInt.maxInt, GoInt.two63; lia | simpl; lia].
  - destruct (memoryBranches 2 _ _ _ _) as [[[v' ts'] ar'] |] eqn:Hr.
    + refine (proj2 (proj2 (H3 2 [40000; 30000; 20000] _ _ _ _ _ _ _ _) _ _ _ Hr));
        try reflexivity; [unfold GoInt.maxInt, GoInt.two63; lia | simpl; lia].
    + vm_compute in Hr. discriminate.
Defined.

(** The same on a whole run of a watcher with [Limit = 2]: the third tick
    ends the first window and resets the extremes to (0, 7); the samples 5,
    3 and 0 of the next window keep decreasing, and its last tick panics. *)
Lemma Watch_decreasing_to_zero_panics :
  let w := watchStart emptyObservor 2 [catMemory] (10000, 20000, 30) (0, 0) noDerived in
  let sample u :=
    {| MemoryUsage := u; TotalUsage := 100; SystemUsage := 1000; OnlineCPUs := 2 |} in
  (exists w',
     run w [sample 9; sample 8; sample 7; sample 5; sample 3] = Some (Continue w') /\
     w_lowest (memoryVars w') = 3 /\ w_highest (memoryVars w') = 0) /\
  run w [sample 9; sample 8; sample 7; sample 5; sample 3; sample 0] = None.
Proof. split; [eexists; split; [| split] |]; vm_compute; reflexivity. Qed.

(** ** The retry loop, for every engine *)

Lemma retryLoop_attempts_bound (update : nat -> bool) (count call : nat) :
  (1 <= attempts (retryLoop update call count) <= S count)%nat /\
  (waits (retryLoop update call count) < attempts (retryLoop update call count))%nat.
Proof.
  revert call. induction count as [| count IH]; intros call.
  - simpl. destruct (update call); unfold attempts, waits; simpl; lia.
  - cbn [retryLoop]. destruct (update call).
    + unfold attempts, waits. simpl. lia.
    + specialize (IH (S call)). unfold attempts, waits in *.
      rewrite !filter_cons. simpl. lia.
Qed.

(** * Further properties of the code *)

(** ** Extremes of a series *)

Lemma minimumOf_le (samples : list Z) (a : Z) :
  minimumOf a samples <= a /\ (forall x, x ∈ samples -> minimumOf a samples <= x).
Proof.
  unfold minimumOf. revert a.
  induction samples as [| y rest IH]; intros a; simpl.
  - split; [lia |]. intros x Hx. inversion Hx.
  - destruct (IH (Z.min a y)) as [H1 H2]. split; [lia |].
    intros x Hx. apply elem_of_cons in Hx as [-> | Hx]; [lia | auto].
Qed.

Lemma minimumOf_elem (samples : list Z) (a : Z) : minimumOf a samples ∈ a :: samples.
Proof.
  unfold minimumOf. revert a.
  induction samples as [| y rest IH]; intros a; simpl; [left |].
  specialize (IH (Z.min a y)).
  apply elem_of_cons in IH as [Heq | Hin].
  - rewrite Heq. destruct (Z.min_spec a y) as [[_ ->] | [_ ->]]; [left | right; left].
  - right. right. exact Hin.
Qed.

Lemma maximumOf_ge (samples : list Z) (a : Z) :
  a <= maximumOf a samples /\ (forall x, x ∈ samples -> x <= maximumOf a samples).
Proof.
  unfold maximumOf. revert a.
  induction samples as [| y rest IH]; intros a; simpl.
  - split; [lia |]. intros x Hx. inversion Hx.
  - destruct (IH (Z.max a y)) as [H1 H2]. split; [lia |].
    intros x Hx. apply elem_of_cons in Hx as [-> | Hx]; [lia | auto].
Qed.

Lemma maximumOf_elem (samples : list Z) (a : Z) : maximumOf a samples ∈ a :: samples.
Proof.
  unfold maximumOf. revert a.
  induction samples as [| y rest IH]; intros a; simpl; [left |].
  specialize (IH (Z.max a y)).
  apply elem_of_cons in IH as [Heq | Hin].
  - rewrite Heq. destruct (Z.max_spec a y) as [[_ ->] | [_ ->]]; [right; left | left].
  - right. right. exact Hin.
Qed.

Lemma maximumOf_mono (samples : list Z) (a b : Z) :
  a <= b -> maximumOf a samples <= maximumOf b samples.
Proof.
  unfold maximumOf. revert a b.
  induction samples as [| y rest IH]; intros a b Hab; simpl; [exact Hab |].
  apply IH. lia.
Qed.

Lemma lowestLoop_minimumOf (array : list Z) (lowest : Z) :
  lowestLoop lowest array = minimumOf lowest array.
Proof.
  unfold minimumOf. revert lowest.
  induction array as [| value rest IH]; intros lowest; [reflexivity |].
  simpl. rewrite IH. f_equal.
  destruct (Z.ltb_spec value lowest); lia.
Qed.

Lemma highestLoop_maximumOf (array : list Z) (best : Z) :
  highestLoop best array = maximumOf best array.
Proof.
  unfold maximumOf. revert best.
  induction array as [| value rest IH]; intros best; [reflexivity |].
  simpl. rewrite IH. f_equal.
  destruct (Z.gtb_spec value best); lia.
Qed.

(** X1. [lowestOf] returns 1 for an empty series and otherwise an entry of
    the series that no entry is below. *)
Theorem lowestOf_minimum (array : list Z) :
  (array = [] -> lowestOf array = 1) /\
  (array <> [] ->
   lowestOf array ∈ array /\ forall x, x ∈ array -> lowestOf array <= x).
Proof.
  split; [intros ->; reflexivity |].
  intros Hne. destruct array as [| first rest]; [congruence |].
  unfold lowestOf. rewrite lowestLoop_minimumOf.
  pose proof (minimumOf_elem (first :: rest) first) as Hin.
  pose proof (minimumOf_le (first :: rest) first) as [_ Hle].
  split; [| exact Hle].
  apply elem_of_cons in Hin as [-> | Hin]; [left | exact Hin].
Qed.

Lemma lowestOf_minimum_witness :
  lowestOf [] = 1 /\ lowestOf [7; 3; 9] ∈ [7; 3; 9] /\ lowestOf [7; 3; 9] <= 9.
Proof.
  destruct (lowestOf_minimum []) as [H0 _].
  destruct (lowestOf_minimum [7; 3; 9]) as [_ H1].
  destruct H1 as [Hin Hle]; [discriminate |].
  split; [apply H0; reflexivity |]. split; [exact Hin |].
  apply Hle. repeat constructor.
Defined.

(** X2. On a series that is not empty and whose entries fit a signed
    integer, [highestOf] returns an entry of the series that no entry is
    above; on an empty series it returns 0. *)
Theorem highestOf_maximum (array : list Z) :
  (array = [] -> highestOf array = 0) /\
  (array <> [] -> (forall x, x ∈ array -> 0 <= x <= GoInt.maxInt) ->
   highestOf array ∈ array /\ forall x, x ∈ array -> x <= highestOf array).
Proof.
  split; [intros ->; reflexivity |].
  intros Hne Hrange. destruct array as [| first rest]; [congruence |].
  unfold highestOf. rewrite highestLoop_maximumOf.
  pose proof (maximumOf_elem (first :: rest) first) as Hin.
  pose proof (maximumOf_ge (first :: rest) first) as [_ Hge].
  assert (Hin' : maximumOf first (first :: rest) ∈ first :: rest).
  { apply elem_of_cons in Hin as [-> | Hin]; [left | exact Hin]. }
  unfold GoInt.to_int. rewrite wrap_id.
  - split; assumption.
  - specialize (Hrange _ Hin').
    unfold GoInt.in_int, GoInt.minInt, GoInt.maxInt, GoInt.two63 in *. lia.
Qed.

Lemma highestOf_maximum_witness :
  highestOf [7; 3; 9] ∈ [7; 3; 9] /\ 7 <= highestOf [7; 3; 9].
Proof.
  destruct (highestOf_maximum [7; 3; 9]) as [_ H].
  destruct H as [Hin Hge].
  - discriminate.
  - intros x Hx. unfold GoInt.maxInt, GoInt.two63.
    repeat (apply elem_of_cons in Hx as [-> | Hx]; [lia |]). inversion Hx.
  - split; [exact Hin |]. apply Hge. repeat constructor.
Defined.

(** X3. The lowest value [Watch] tracks over a window is exact whatever
    the samples: it is the minimum of the starting value and the samples.
    The highest value lies between the starting value and the maximum, and
    is the maximum when the starting range is ordered. *)
Theorem trackExtremes_bounds (samples : list Z) (lowest highest : Z) :
  fst (trackExtremes lowest highest samples) = minimumOf lowest samples /\
  highest <= snd (trackExtremes lowest highest samples) <= maximumOf highest samples /\
  (lowest <= highest ->
   snd (trackExtremes lowest highest samples) = maximumOf highest samples).
Proof.
  revert lowest highest.
  induction samples as [| u rest IH]; intros lowest highest.
  - unfold minimumOf, maximumOf. simpl. repeat split; lia.
  - cbn [trackExtremes]. unfold minimumOf, maximumOf. cbn [foldl].
    fold (minimumOf (Z.min lowest u) rest). fold (maximumOf (Z.max highest u) rest).
    unfold getExtremeValues.
    destruct (Z.ltb_spec u lowest) as [Hlt | Hge].
    + destruct (IH u highest) as (H1 & H2 & H3).
      rewrite H1. replace (Z.min lowest u) with u by lia.
      split; [reflexivity |]. split.
      * split; [lia |]. etransitivity; [apply H2 |]. apply maximumOf_mono. lia.
      * intros Hord. rewrite H3 by lia. f_equal. lia.
    + destruct (Z.gtb_spec u highest) as [Hgt | Hle].
      * destruct (IH lowest u) as (H1 & H2 & H3).
        rewrite H1. replace (Z.min lowest u) with lowest by lia.
        replace (Z.max highest u) with u by lia.
        split; [reflexivity |]. split; [lia |].
        intros Hord. apply H3. lia.
      * destruct (IH lowest highest) as (H1 & H2 & H3).
        rewrite H1. replace (Z.min lowest u) with lowest by lia.
        replace (Z.max highest u) with highest by lia.
        split; [reflexivity |]. split; [lia |]. exact H3.
Qed.

Lemma trackExtremes_bounds_witness :
  snd (trackExtremes 50 80 [90; 40; 85]) = 90.
Proof.
  destruct (trackExtremes_bounds [90; 40; 85] 50 80) as (_ & _ & H).
  rewrite H; [reflexivity | lia].
Defined.

(** After a reset the range is not ordered, and the highest value can
    miss samples: here 90 is never recorded. *)
Example trackExtremes_misses_a_peak :
  trackExtremes 100 0 [90; 80; 85] = (80, 85).
Proof. reflexivity. Qed.

(** X4. A window of samples that all equal the positive usage the reset
    kept has both extremes at that usage, and its amplitude is 1. *)
Theorem constant_usage_amplitude (u : Z) (n : nat) :
  0 < u ->
  trackExtremes u 0 (replicate (S n) u) = (u, u) /\
  windowAmplitude u u = Some 1.
Proof.
  intros Hu. split.
  - cbn [replicate trackExtremes]. unfold getExtremeValues at 1.
    destruct (Z.ltb_spec u u); [lia |].
    destruct (Z.gtb_spec u 0); [| lia].
    induction n as [| n IH]; [reflexivity |].
    cbn [replicate trackExtremes]. unfold getExtremeValues at 1.
    destruct (Z.ltb_spec u u); [lia |].
    destruct (Z.gtb_spec u u); [lia |]. exact IH.
  - unfold windowAmplitude, GoInt.udiv.
    destruct (Z.eqb_spec u 0); [lia |].
    rewrite Z.div_same by lia. reflexivity.
Qed.

Lemma constant_usage_amplitude_witness :
  trackExtremes 50000 0 (replicate 11 50000) = (50000, 50000) /\
  windowAmplitude 50000 50000 = Some 1.
Proof. apply (constant_usage_amplitude 50000 10). lia. Defined.

(** X5. The end condition of the memory prediction is monotone in the
    length of the predicted series: once it holds it holds for every longer
    series of the same mean amplitude; and it holds whenever the length has
    reached the limit. *)
Theorem checkMemoryEndCondition_monotone (lenSerie lenSerie' limit amplitude : Z) :
  (limit <= lenSerie -> checkMemoryEndCondition lenSerie limit amplitude = true) /\
  (checkMemoryEndCondition lenSerie limit amplitude = true ->
   lenSerie <= lenSerie' ->
   checkMemoryEndCondition lenSerie' limit amplitude = true).
Proof.
  unfold checkMemoryEndCondition.
  rewrite !orb_true_iff, !andb_true_iff, !Z.geb_le, !Z.gtb_lt, !Z.leb_le.
  split; intros; lia.
Qed.

Lemma checkMemoryEndCondition_monotone_witness :
  checkMemoryEndCondition 10 10 7 = true /\ checkMemoryEndCondition 8 10 2 = true.
Proof.
  destruct (checkMemoryEndCondition_monotone 10 10 10 7) as [H1 _].
  destruct (checkMemoryEndCondition_monotone 6 8 10 2) as [_ H2].
  split; [apply H1; lia |]. apply H2; [reflexivity | lia].
Defined.

(** ** Averages *)

Lemma sumUint_exact (array : list Z) (total : Z) :
  0 <= total -> (forall x, x ∈ array -> 0 <= x) ->
  total + foldr Z.add 0 array < GoInt.two64 ->
  sumUint total array = total + foldr Z.add 0 array.
Proof.
  revert total.
  induction array as [| number rest IH]; intros total Ht Hpos Hsum; simpl in *.
  - lia.
  - assert (Hn : 0 <= number) by (apply Hpos; left).
    assert (Hrest : forall x, x ∈ rest -> 0 <= x) by (intros x Hx; apply Hpos; right; exact Hx).
    assert (Hr : 0 <= foldr Z.add 0 rest).
    { clear -Hrest. induction rest as [| y r IHr]; simpl; [lia |].
      assert (0 <= y) by (apply Hrest; left).
      assert (0 <= foldr Z.add 0 r) by (apply IHr; intros x Hx; apply Hrest; right; exact Hx).
      lia. }
    unfold GoInt.uadd, GoInt.uwrap. rewrite Z.mod_small by lia.
    rewrite IH by (try assumption; lia). lia.
Qed.

Lemma sum_between (array : list Z) (lo hi : Z) :
  (forall x, x ∈ array -> lo <= x <= hi) ->
  Z.of_nat (length array) * lo <= foldr Z.add 0 array <= Z.of_nat (length array) * hi.
Proof.
  induction array as [| y rest IH]; intros Hall; [simpl; lia |].
  assert (lo <= y <= hi) by (apply Hall; left).
  assert (Hrest : forall x, x ∈ rest -> lo <= x <= hi)
    by (intros x Hx; apply Hall; right; exact Hx).
  specialize (IH Hrest). cbn [length foldr]. lia.
Qed.

(** X6. When the entries of a series lie between [lo] and [hi] and their
    sum fits 64 bits, [averrage] lies between [lo] and [hi] too; on an empty
    series it is 0. *)
Theorem averrage_between (array : list Z) (lo hi : Z) :
  array <> [] -> 0 <= lo ->
  (forall x, x ∈ array -> lo <= x <= hi) ->
  Z.of_nat (length array) * hi < GoInt.two64 ->
  lo <= averrage array <= hi.
Proof.
  intros Hne Hlo Hall Hfit.
  pose proof (sum_between array lo hi Hall) as Hsum.
  assert (Hlen : 0 < Z.of_nat (length array)) by (destruct array; [congruence | simpl; lia]).
  unfold averrage. destruct array as [| first rest] eqn:Ha; [congruence |].
  rewrite <- Ha in *. clear Ha.
  rewrite sumUint_exact.
  - rewrite Z.add_0_l. split.
    + apply Z.div_le_lower_bound; lia.
    + apply Z.div_le_upper_bound; lia.
  - lia.
  - intros x Hx. specialize (Hall x Hx). lia.
  - lia.
Qed.

Lemma averrage_between_witness : 50000 <= averrage [50000; 50500; 55000] <= 55000.
Proof.
  apply averrage_between.
  - discriminate.
  - lia.
  - intros x Hx.
    repeat (apply elem_of_cons in Hx as [-> | Hx]; [lia |]). inversion Hx.
  - unfold GoInt.two64. simpl. lia.
Defined.

(** X7. [averrageFloat] leaves the not-a-number entries out of both the
    sum and the count: on a series that is not empty it returns the float
    quotient of the sum of the other entries by their number. *)
Theorem averrageFloat_skips_NaN (array : list float64) :
  Z.of_nat (length array) <= GoInt.maxInt ->
  array <> [] ->
  averrageFloat array =
    f64_div (sumFloat GoFloat.zero (numbers array))
            (f64_of_Z (Z.of_nat (length (numbers array)))).
Proof. exact (averrageFloat_numbers array). Qed.

Lemma averrageFloat_skips_NaN_witness :
  averrageFloat [f64_of_Z 10; NaN; f64_of_Z 30] = f64_of_Z 20.
Proof.
  rewrite averrageFloat_skips_NaN.
  - vm_compute. reflexivity.
  - unfold GoInt.maxInt, GoInt.two63. simpl. lia.
  - discriminate.
Defined.

(** ** Weights *)

Lemma weightLoop_full (highest : Z) (array : list Z) :
  0 ∉ array -> length (weightLoop highest array) = length array.
Proof.
  induction array as [| number rest IH]; intros Hz; [reflexivity |].
  apply not_elem_of_cons in Hz as [Hne Hz].
  simpl. destruct (Z.eqb_spec number 0); [congruence |].
  simpl. rewrite IH by exact Hz. reflexivity.
Qed.

Lemma weightedLoop_in_range (weight : list float32) (array : list Z)
    (index : nat) (total : Z) :
  (index + length array <= length weight)%nat ->
  is_Some (weightedLoop index array weight total).
Proof.
  revert index total.
  induction array as [| number rest IH]; intros index total Hlen; [eexists; reflexivity |].
  cbn [weightedLoop]. simpl in Hlen.
  destruct (lookup_lt_is_Some_2 weight index ltac:(lia)) as [w ->].
  simpl. apply IH. lia.
Qed.

(** X8. On a series without a zero entry [generateMemoryWeight] produces
    one weight per entry or none at all, and [weightedAverrage] returns: it
    never reads a weight out of range. *)
Theorem weightedAverrage_returns (array ref : list Z) :
  0 ∉ array ->
  (length (generateMemoryWeight array ref) = length array \/
   generateMemoryWeight array ref = []) /\
  is_Some (weightedAverrage array (generateMemoryWeight array ref)).
Proof.
  intros Hz. unfold generateMemoryWeight.
  destruct (Z.eqb_spec (highestOf ref) 0) as [_ | _].
  - split; [right; reflexivity |].
    unfold weightedAverrage. simpl. rewrite orb_true_r. eexists; reflexivity.
  - pose proof (weightLoop_full (highestOf ref) array Hz) as Hlen.
    split; [left; exact Hlen |].
    unfold weightedAverrage.
    destruct (_ || _); [eexists; reflexivity |].
    destruct (weightedLoop_in_range (weightLoop (highestOf ref) array) array 0 0)
      as [total ->]; [simpl; lia |].
    eexists; reflexivity.
Qed.

Lemma weightedAverrage_returns_witness :
  is_Some (weightedAverrage [50050; 50215] (generateMemoryWeight [50050; 50215] [50000])).
Proof.
  apply (weightedAverrage_returns [50050; 50215] [50000]).
  intros Hin. repeat (apply elem_of_cons in Hin as [Hin | Hin]; [discriminate |]).
  inversion Hin.
Defined.

Lemma weight_of_large_entry (highest number : Z) (rest : list Z) :
  0 < number -> GoInt.to_uint64 highest < 2 * number ->
  weightLoop highest (number :: rest) = f32_of_Z 1 :: weightLoop highest rest.
Proof.
  intros Hpos Hlarge. cbn [weightLoop].
  destruct (Z.eqb_spec number 0); [lia |].
  assert (Hq : GoInt.to_uint64 highest / number = 0 \/ GoInt.to_uint64 highest / number = 1).
  { assert (0 <= GoInt.to_uint64 highest).
    { unfold GoInt.to_uint64, GoInt.uwrap, GoInt.two64. apply Z.mod_pos_bound. lia. }
    assert (0 <= GoInt.to_uint64 highest / number) by (apply Z.div_pos; lia).
    assert (GoInt.to_uint64 highest / number < 2) by (apply Z.div_lt_upper_bound; lia).
    lia. }
  destruct Hq as [-> | ->]; reflexivity.
Qed.

(** X9. The weights are coarse: every entry above half of the reference
    highest value (and so every entry above it, where the quotient is 0 and
    the infinite inverse is replaced) gets the weight 1 exactly. *)
Theorem generateMemoryWeight_ones (array ref : list Z) :
  highestOf ref <> 0 ->
  (forall x, x ∈ array -> 0 < x /\ GoInt.to_uint64 (highestOf ref) < 2 * x) ->
  generateMemoryWeight array ref = replicate (length array) (f32_of_Z 1).
Proof.
  intros Href Hall. unfold generateMemoryWeight.
  destruct (Z.eqb_spec (highestOf ref) 0); [congruence |].
  induction array as [| number rest IH]; [reflexivity |].
  destruct (Hall number ltac:(left)) as [Hpos Hlarge].
  rewrite weight_of_large_entry by assumption.
  cbn [length replicate]. f_equal.
  apply IH. intros x Hx. apply Hall. right. exact Hx.
Qed.

Lemma generateMemoryWeight_ones_witness :
  generateMemoryWeight [60000; 30000; 45000] [50000; 40000] =
    [f32_of_Z 1; f32_of_Z 1; f32_of_Z 1].
Proof.
  apply (generateMemoryWeight_ones [60000; 30000; 45000] [50000; 40000]).
  - vm_compute. discriminate.
  - intros x Hx.
    repeat (apply elem_of_cons in Hx as [-> | Hx]; [vm_compute; split; reflexivity |]).
    inversion Hx.
Defined.

(** ** The limit applier *)

(** X10. Whatever the suggested values and the observations, the memory
    part of the update keeps swap unlimited (-1) and sends a reservation and
    a limit that are both at least 5 MiB, the reservation not above the
    limit. *)
Theorem UpdateResources_memory_floor
    (obs : option Observor) (sugMin sugMax threshold : Z) :
  let update := UpdateResources_memory obs sugMin sugMax threshold in
  MemorySwap update = -1 /\
  5 * 1024 * 1024 <= MemoryReservation update <= Memory update.
Proof.
  intros update. subst update. unfold UpdateResources_memory.
  destruct (observedExtremes obs sugMin sugMax) as [lowest highest].
  pose proof (clampMemory_above (computedMemory sugMax highest threshold)) as Hm.
  pose proof (clampReservation_above (computedReservation sugMin lowest)) as Hr.
  unfold minAllowedMemoryLimit, miB, kiB in Hm, Hr.
  destruct (Z.gtb_spec (clampReservation (computedReservation sugMin lowest))
              (clampMemory (computedMemory sugMax highest threshold)));
    simpl; split; try reflexivity; lia.
Qed.

(** ** The retry loop *)

(** X11. A call that succeeds ends the retry loop at once: when the call
    number [k] (counted from 0, at most 10) is the first to succeed, the
    engine is called [k + 1] times with [k] waits on the ticker between the
    calls, and the last thing logged is the success. *)
Theorem UpdateResources_retry_success (update : nat -> bool) (k : nat) :
  (k <= 10)%nat ->
  (forall j, (j < k)%nat -> update j = false) ->
  update k = true ->
  attempts (UpdateResources_retry update) = S k /\
  waits (UpdateResources_retry update) = k /\
  last (UpdateResources_retry update) = Some LogApplied.
Proof.
  intros Hk Hfail Hok.
  apply (retryLoop_success update k baseCount 0).
  - exact Hk.
  - intros j Hj. simpl. apply Hfail. exact Hj.
  - simpl. exact Hok.
Qed.

Lemma UpdateResources_retry_success_witness :
  attempts (UpdateResources_retry (fun call => Nat.eqb call 2)) = 3%nat /\
  waits (UpdateResources_retry (fun call => Nat.eqb call 2)) = 2%nat /\
  last (UpdateResources_retry (fun call => Nat.eqb call 2)) = Some LogApplied.
Proof.
  apply (UpdateResources_retry_success (fun call => Nat.eqb call 2) 2).
  - lia.
  - intros j Hj. destruct j as [| [| j]]; [reflexivity | reflexivity | lia].
  - reflexivity.
Defined.

(** X12. Whatever the engine answers, the retry loop calls it at least
    once and at most eleven times, and waits on the ticker only between two
    calls: there are fewer waits than calls. *)
Theorem UpdateResources_retry_bounded (update : nat -> bool) :
  (1 <= attempts (UpdateResources_retry update) <= 11)%nat /\
  (waits (UpdateResources_retry update) < attempts (UpdateResources_retry update))%nat.
Proof. exact (retryLoop_attempts_bound update baseCount 0). Qed.

(** ** Starting values *)

Lemma watchStart_frame (obs : Observor) (limit : Z) (config : list string)
    (memory : Z * Z * Z) (cpu : Z * Z) (derived : MemoryAR * CpuAR) :
  let w := watchStart obs limit config memory cpu derived in
  Obs w = obs /\ Limit w = limit /\ started w = false /\
  (forall c, c ∈ config -> c ∈ Config w) /\
  (catMemory ∉ config -> catCPU ∉ config ->
   Config w = config /\ cpuMin w = 0 /\ cpuMax w = 0).
Proof.
  unfold watchStart, baseValueMemory, baseValueCPU.
  destruct memory as [[a b] c]. destruct cpu as [cMin cMax].
  destruct (IsActivated config catMemory) eqn:Hm.
  - apply IsActivated_elem in Hm.
    destruct (IsActivated (addCategory config catMemoryAR) catCPU) eqn:Hc; simpl;
      (split; [reflexivity |]); (split; [reflexivity |]); (split; [reflexivity |]);
      (split; [auto using addCategory_elem | intros Hnm; contradiction]).
  - destruct (IsActivated config catCPU) eqn:Hc; simpl;
      (split; [reflexivity |]); (split; [reflexivity |]); (split; [reflexivity |]);
      (split; [auto using addCategory_elem |]).
    + intros _ Hnc. apply IsActivated_elem in Hc. contradiction.
    + intros _ _. repeat split.
Qed.

(** X13. With the ["memory"] category configured, [Watch] starts from a
    bracket of at least (10000, 20000) and a threshold that is not 0 (a
    missing or unreadable key reads as 0 and gets the default), and the
    derived category ["memoryAR"] exists; without it the three values are 0. *)
Theorem watchStart_memory_defaults (obs : Observor) (limit : Z)
    (config : list string) (memory : Z * Z * Z) (cpu : Z * Z)
    (derived : MemoryAR * CpuAR) :
  let w := watchStart obs limit config memory cpu derived in
  (catMemory ∈ config ->
   10000 <= w_min (memoryVars w) /\ 20000 <= w_max (memoryVars w) /\
   w_threshold (memoryVars w) <> 0 /\
   (snd memory = 0 -> w_threshold (memoryVars w) = 30) /\
   IsActivated (Config w) catMemoryAR = true) /\
  (catMemory ∉ config ->
   w_min (memoryVars w) = 0 /\ w_max (memoryVars w) = 0 /\
   w_threshold (memoryVars w) = 0).
Proof.
  unfold watchStart, baseValueMemory, baseValueCPU.
  destruct memory as [[a b] c]. destruct cpu as [cMin cMax].
  destruct (IsActivated config catMemory) eqn:Hm.
  - assert (Har : catMemoryAR ∈ addCategory config catMemoryAR).
    { unfold addCategory. destruct (IsActivated config catMemoryAR) eqn:Ha.
      - apply IsActivated_elem. exact Ha.
      - apply elem_of_app. right. left. }
    split.
    + intros _.
      destruct (IsActivated (addCategory config catMemoryAR) catCPU); simpl;
        (repeat split;
         [ destruct (Z.ltb_spec a 10000); lia
         | destruct (Z.ltb_spec b 20000); lia
         | destruct (Z.eqb_spec c 0); lia
         | intros ->; reflexivity
         | apply IsActivated_elem; auto using addCategory_elem ]).
    + intros Hn. apply IsActivated_elem in Hm. contradiction.
  - split.
    + intros Hin. apply IsActivated_elem in Hin. congruence.
    + intros _. destruct (IsActivated config catCPU); simpl; repeat split.
Qed.

Lemma watchStart_memory_defaults_witness :
  w_min (memoryVars (watchStart emptyObservor 10 [catMemory] (0, 0, 0) (0, 0) noDerived))
    >= 10000.
Proof.
  destruct (watchStart_memory_defaults emptyObservor 10 [catMemory] (0, 0, 0) (0, 0)
              noDerived)
    as [H _].
  destruct H as (H & _); [left | lia].
Defined.

(** X14. A first sample that reports no online CPU makes a watcher with a
    CPU baseline panic: [startRoutine] divides the midpoint of the baseline
    by the number of CPUs. *)
Theorem first_tick_without_cpus_panics (obs : Observor) (limit : Z)
    (config : list string) (memory : Z * Z * Z) (cMin cMax : Z)
    (derived : MemoryAR * CpuAR) (input : Sample) :
  NoDup config -> catCPU ∈ config ->
  cMin <> 0 -> cMax <> 0 -> OnlineCPUs input = 0 ->
  tick (watchStart obs limit config memory (cMin, cMax) derived) false true input = None.
Proof.
  intros Hnd Hin HcMin HcMax Hcpus.
  destruct (watchStart_cpu obs limit config memory cMin cMax derived Hnd Hin)
    as (_ & _ & _ & _ & Hstart & Hmin & Hmax & _).
  unfold tick. simpl isInBadState. cbv iota.
  rewrite Hstart, Hmin, Hmax, Hcpus. simpl negb. cbv iota.
  unfold startRoutine.
  destruct (Z.eqb_spec cMin 0); [congruence |].
  destruct (Z.eqb_spec cMax 0); [congruence |].
  reflexivity.
Qed.

Lemma first_tick_without_cpus_panics_witness :
  tick (watchStart emptyObservor 10 [catCPU] (0, 0, 0) (60, 70) noDerived) false true
    {| MemoryUsage := 50000; TotalUsage := 100; SystemUsage := 1000; OnlineCPUs := 0 |}
  = None.
Proof.
  apply first_tick_without_cpus_panics; try discriminate; try reflexivity.
  - apply NoDup_singleton.
  - left.
Defined.

(** ** Categories that are done or unknown *)

Lemma dispatchOn_unrecognised (input : Sample) (categories : list string) (w : Watcher) :
  catMemory ∉ categories -> catCPU ∉ categories ->
  dispatchOn categories w input = Some w.
Proof.
  induction categories as [| c rest IH]; intros Hm Hc; [reflexivity |].
  apply not_elem_of_cons in Hm as [Hcm Hm].
  apply not_elem_of_cons in Hc as [Hcc Hc].
  cbn [dispatchOn]. unfold categoryStep, continueIteration.
  destruct (String.eqb_spec c catMemory); [congruence |].
  destruct (String.eqb_spec c catCPU); [congruence |].
  simpl. apply IH; assumption.
Qed.

(** X15. A watcher on a new observor whose configuration names neither
    ["memory"] nor ["cpu%"] observes nothing: its first tick only starts it,
    and its second tick already ends the watch with [UpdateResources]. The
    memory update, sent when the configuration holds a ["memoryAR"] category,
    is computed from the [nmin], [nmax] and [opti] configured there and the
    empty series of the observor. *)
Theorem Watch_without_category (size limit : Z) (config : list string)
    (memory : Z * Z * Z) (cpu : Z * Z) (derived : MemoryAR * CpuAR)
    (obs : Observor) (first second : Sample) :
  NewObservor size = Some obs ->
  catMemory ∉ config -> catCPU ∉ config ->
  run (watchStart obs limit config memory cpu derived) [first; second]
  = Some (Applied
            (if IsActivated config catMemoryAR
             then Some (UpdateResources_memory (Some obs)
                          (nmin (fst derived)) (nmax (fst derived)) (opti (fst derived)))
             else None)).
Proof.
  intros Hnew Hm Hc.
  assert (Hempty : obs = emptyObservor).
  { unfold NewObservor in Hnew. destruct (size <? 0); congruence. }
  subst obs.
  destruct (watchStart_frame emptyObservor limit config memory cpu derived)
    as (Hobs & Hlimit & Hstart & _ & Hcfg).
  destruct (Hcfg Hm Hc) as (Hconfig & Hmin & Hmax).
  assert (Hnm : IsActivated config catMemory = false).
  { apply not_true_is_false. intros H. apply IsActivated_elem in H. contradiction. }
  assert (Hnc : IsActivated config catCPU = false).
  { apply not_true_is_false. intros H. apply IsActivated_elem in H. contradiction. }
  set (w := watchStart emptyObservor limit config memory cpu derived) in *.
  assert (Hvars : memoryAR w = fst derived).
  { subst w. unfold watchStart, baseMemoryAR. rewrite Hnm.
    destruct (baseValueMemory config memory) as [[[? ?] ?] ?].
    destruct (baseValueCPU _ cpu) as [[? ?] ?]. reflexivity. }
  assert (Hfin : Finished w = false).
  { subst w. unfold watchStart.
    destruct (baseValueMemory config memory) as [[[? ?] ?] ?].
    destruct (baseValueCPU _ cpu) as [[? ?] ?]. reflexivity. }
  clearbody w.
  assert (H1 : tick w false true first
               = Some (Continue (markStarted (setLowest w (MemoryUsage first))))).
  { unfold tick. simpl isInBadState. cbv iota.
    rewrite Hstart, Hmin, Hmax. simpl negb. cbv iota.
    unfold startRoutine. simpl. unfold dispatch.
    rewrite dispatchOn_unrecognised by (simpl; rewrite Hconfig; assumption).
    reflexivity. }
  cbn [run]. rewrite H1. simpl.
  unfold tick, isFinished. simpl.
  rewrite Hconfig, Hnm, Hnc, Hobs, Hfin, Hvars. simpl.
  reflexivity.
Qed.

Lemma Watch_without_category_witness :
  NewObservor 10 = Some emptyObservor /\
  run (watchStart emptyObservor 10 [catMemoryAR] (0, 0, 0) (0, 0)
         ({| nmin := 70000000; nmax := 90000000; opti := 20; usage := 0 |},
          {| percentOpti := GoFloat.zero; usageOpti := GoFloat.zero |}))
    [ {| MemoryUsage := 1; TotalUsage := 2; SystemUsage := 3; OnlineCPUs := 4 |};
      {| MemoryUsage := 5; TotalUsage := 6; SystemUsage := 7; OnlineCPUs := 8 |} ]
  = Some (Applied (Some {| Memory := 90000000; MemorySwap := -1;
                           MemoryReservation := 35000000 |})).
Proof.
  split; [reflexivity |].
  rewrite (Watch_without_category 10 10 [catMemoryAR] (0, 0, 0) (0, 0) _ emptyObservor).
  - vm_compute. reflexivity.
  - reflexivity.
  - intros H. apply list_elem_of_singleton in H. discriminate.
  - intros H. apply list_elem_of_singleton in H. discriminate.
Defined.

Lemma memoryStep_keeps_cpu (input : Sample) (w w1 : Watcher) :
  memoryStep w input = Some w1 ->
  CPU (Obs w1) = CPU (Obs w) /\ cpuVars w1 = cpuVars w /\ cpuAR w1 = cpuAR w.
Proof.
  unfold memoryStep.
  destruct (memoryBranch _ _ _ _ _) as [[[v ts] ar] |]; [| discriminate].
  simpl. intros [= <-]. repeat split.
Qed.

Lemma cpuStep_keeps_memory (input : Sample) (w w1 : Watcher) :
  cpuStep w input = Some w1 ->
  RAM (Obs w1) = RAM (Obs w) /\ memoryVars w1 = memoryVars w /\
  memoryAR w1 = memoryAR w.
Proof.
  unfold cpuStep.
  destruct (cpuBranch _ _ _ _ _) as [[[v ts] ar] |]; [| discriminate].
  simpl. intros [= <-]. repeat split.
Qed.

(** X16. A category whose prediction is done is left alone by every later
    dispatch: with the memory flag set, the memory series, the bracket, the
    extremes, the window counter and ["memoryAR"] are unchanged; with the
    CPU flag set, so are the CPU series, the previous values, the counter
    and ["cpuAR"]. *)
Theorem dispatchOn_latched (input : Sample) (categories : list string) (w w' : Watcher) :
  dispatchOn categories w input = Some w' ->
  (MemoryPrediction (RAM (Obs w)) = true ->
   RAM (Obs w') = RAM (Obs w) /\ memoryVars w' = memoryVars w /\
   memoryAR w' = memoryAR w) /\
  (CPUPrediction (CPU (Obs w)) = true ->
   CPU (Obs w') = CPU (Obs w) /\ cpuVars w' = cpuVars w /\ cpuAR w' = cpuAR w).
Proof.
  revert w.
  induction categories as [| c rest IH]; intros w Hd.
  - injection Hd as <-. split; intros _; repeat split.
  - cbn [dispatchOn] in Hd.
    destruct (categoryStep c w input) as [w1 |] eqn:Hs; [| discriminate].
    simpl in Hd. destruct (IH w1 Hd) as [IHm IHc].
    unfold categoryStep in Hs.
    destruct (continueIteration c catMemory _) eqn:Hcm.
    + apply continueIteration_true in Hcm as [_ Hflag].
      destruct (memoryStep_keeps_cpu _ _ _ Hs) as (H1 & H2 & H3).
      split; [congruence |].
      intros Hc. rewrite <- H1 in Hc. destruct (IHc Hc) as (? & ? & ?).
      repeat split; congruence.
    + destruct (continueIteration c catCPU _) eqn:Hcc.
      * apply continueIteration_true in Hcc as [_ Hflag].
        destruct (cpuStep_keeps_memory _ _ _ Hs) as (H1 & H2 & H3).
        split; [| congruence].
        intros Hm. rewrite <- H1 in Hm. destruct (IHm Hm) as (? & ? & ?).
        repeat split; congruence.
      * injection Hs as <-. split; assumption.
Qed.

Lemma dispatchOn_latched_witness :
  exists w',
    dispatchOn [catMemory; catCPU]
      (markStarted (watchStart emptyObservor 10 [catCPU] (0, 0, 0) (0, 0) noDerived))
      {| MemoryUsage := 50000; TotalUsage := 100; SystemUsage := 1000; OnlineCPUs := 2 |}
    = Some w' /\
    RAM (Obs w') = RAM emptyObservor.
Proof.
  eexists. split; [vm_compute; reflexivity |].
  match goal with
  | |- RAM (Obs ?w') = _ =>
      destruct (dispatchOn_latched
                  {| MemoryUsage := 50000; TotalUsage := 100; SystemUsage := 1000;
                     OnlineCPUs := 2 |}
                  [catMemory; catCPU]
                  (markStarted
                     (watchStart emptyObservor 10 [catCPU] (0, 0, 0) (0, 0) noDerived))
                  w') as [H _]
  end.
  - vm_compute. reflexivity.
  - destruct H as (H & _); [reflexivity | exact H].
Defined.

(** ** The order of the categories, again *)

(** X17. The tick does not depend on the order in which [range] visits the
    categories of the configuration: two orders of the same categories give
    the same watcher, or both panic. *)
Theorem Watch_category_order (input : Sample) (categories categories' : list string)
    (w : Watcher) :
  Permutation categories categories' ->
  dispatchOn categories w input = dispatchOn categories' w input.
Proof. intros Hp. apply dispatchOn_Permutation. exact Hp. Qed.

Lemma Watch_category_order_witness :
  dispatchOn [catMemory; catCPU]
    (markStarted
       (watchStart emptyObservor 10 [catMemory; catCPU] (0, 0, 0) (0, 0) noDerived))
    {| MemoryUsage := 50000; TotalUsage := 100; SystemUsage := 1000; OnlineCPUs := 2 |}
  = dispatchOn [catCPU; catMemory]
      (markStarted
       (watchStart emptyObservor 10 [catMemory; catCPU] (0, 0, 0) (0, 0) noDerived))
      {| MemoryUsage := 50000; TotalUsage := 100; SystemUsage := 1000; OnlineCPUs := 2 |}.
Proof. apply Watch_category_order. apply perm_swap. Defined.

(** ** The size of the series *)

Lemma push_length {A : Type} (l : list A) (v : A) (n : Z) :
  0 < n -> Z.of_nat (length l) <= n ->
  Z.of_nat (length ((if Z.of_nat (length l) >=? n then drop 1 l else l) ++ [v])) <= n.
Proof.
  intros Hn Hl. rewrite length_app. simpl.
  destruct (Z.geb_spec (Z.of_nat (length l)) n).
  - rewrite length_drop. lia.
  - lia.
Qed.

Ltac bind_cases :=
  repeat match goal with
         | |- (?m ≫= _) = Some _ -> _ => destruct m; simpl; [| discriminate]
         end.

Lemma memoryBranch_bounded
    (limit mUsage : Z) (v v' : MemoryVars) (ts ts' : TimeSerieRAM) (ar ar' : MemoryAR) :
  0 < limit -> ramBounded limit ts ->
  memoryBranch limit mUsage v ts ar = Some (v', ts', ar') ->
  ramBounded limit ts'.
Proof.
  intros Hl (H1 & H2 & H3 & H4 & H5 & H6 & H7 & H8 & H9). unfold memoryBranch.
  destruct (processMemoryStats mUsage (w_min v) (w_max v) (w_threshold v)) as [min max].
  destruct (getExtremeValues mUsage (w_lowest v) (w_highest v)) as [lowest highest].
  unfold fifoUint. rewrite !fifo_step by exact Hl. simpl.
  destruct (w_memoryTurn v >=? limit).
  - unfold memoryWindow, fifoUint. rewrite !fifo_step by exact Hl. simpl.
    destruct (windowAmplitude highest lowest) as [amplitude |]; simpl; [| discriminate].
    repeat (rewrite !fifo_step by exact Hl; simpl).
    bind_cases. intros [= <- <- <-].
    unfold ramBounded. simpl. repeat split; auto using push_length.
  - intros [= <- <- <-].
    unfold ramBounded. simpl. repeat split; auto using push_length.
Qed.

Lemma cpuBranch_bounded
    (limit : Z) (input : Sample) (v v' : CPUVars) (ts ts' : TimeSerieCPU) (ar ar' : CpuAR) :
  0 < limit -> cpuBounded limit ts ->
  cpuBranch limit input v ts ar = Some (v', ts', ar') ->
  cpuBounded limit ts'.
Proof.
  intros Hl (H1 & H2 & H3 & H4). unfold cpuBranch, fifoFloat.
  rewrite !fifo_step by exact Hl. simpl.
  destruct (w_cpuTurn v >=? limit).
  - rewrite !fifo_step by exact Hl. simpl. intros [= <- <- <-].
    unfold cpuBounded. simpl. repeat split; auto using push_length.
  - intros [= <- <- <-].
    unfold cpuBounded. simpl. repeat split; auto using push_length.
Qed.

Lemma categoryStep_bounded (input : Sample) (c : string) (w w' : Watcher) :
  0 < Limit w -> seriesBounded (Limit w) (Obs w) ->
  categoryStep c w input = Some w' ->
  Limit w' = Limit w /\ seriesBounded (Limit w') (Obs w').
Proof.
  intros Hl [Hram Hcpu]. unfold categoryStep.
  destruct (continueIteration c catMemory _).
  - unfold memoryStep.
    destruct (memoryBranch _ _ _ _ _) as [[[v ts] ar] |] eqn:Hb; [| discriminate].
    simpl. intros [= <-]. simpl. split; [reflexivity |].
    split; [| exact Hcpu]. simpl.
    exact (memoryBranch_bounded _ _ _ _ _ _ _ _ Hl Hram Hb).
  - destruct (continueIteration c catCPU _).
    + unfold cpuStep.
      destruct (cpuBranch _ _ _ _ _) as [[[v ts] ar] |] eqn:Hb; [| discriminate].
      simpl. intros [= <-]. simpl. split; [reflexivity |].
      split; [exact Hram |]. simpl.
      exact (cpuBranch_bounded _ _ _ _ _ _ _ _ Hl Hcpu Hb).
    + intros [= <-]. split; [reflexivity | split; assumption].
Qed.

Lemma dispatchOn_bounded (input : Sample) (categories : list string) (w w' : Watcher) :
  0 < Limit w -> seriesBounded (Limit w) (Obs w) ->
  dispatchOn categories w input = Some w' ->
  Limit w' = Limit w /\ seriesBounded (Limit w') (Obs w').
Proof.
  revert w.
  induction categories as [| c rest IH]; intros w Hl Hb Hd.
  - injection Hd as <-. split; [reflexivity | exact Hb].
  - cbn [dispatchOn] in Hd.
    destruct (categoryStep c w input) as [w1 |] eqn:Hs; [| discriminate].
    simpl in Hd.
    destruct (categoryStep_bounded _ _ _ _ Hl Hb Hs) as [HL1 Hb1].
    destruct (IH w1 ltac:(lia) Hb1 Hd) as [HL' Hb'].
    split; [congruence | exact Hb'].
Qed.

Lemma markStarted_bounded (n : Z) (w : Watcher) :
  seriesBounded n (Obs w) -> seriesBounded n (Obs (markStarted w)) /\
  Limit (markStarted w) = Limit w /\ Config (markStarted w) = Config w.
Proof.
  intros [Hram Hcpu]. unfold markStarted. simpl.
  split; [| split; reflexivity]. split; simpl.
  - destruct (IsActivated (Config w) catMemory); exact Hram.
  - destruct (IsActivated (Config w) catCPU); exact Hcpu.
Qed.

Lemma startRoutine_markStarted (w w1 : Watcher) (ncpus cMin cMax : Z) :
  startRoutine w ncpus cMin cMax = Some w1 -> w1 = markStarted w.
Proof.
  unfold startRoutine.
  destruct (negb (cMin =? 0) && negb (cMax =? 0)); [| congruence].
  destruct (cpuSeed ncpus cMin cMax); [| discriminate]. simpl.
  destruct (fifoFloat _ _ _); [| discriminate]. simpl. congruence.
Qed.

Lemma tick_bounded (w w' : Watcher) (dead running : bool) (input : Sample) :
  0 < Limit w -> seriesBounded (Limit w) (Obs w) ->
  tick w dead running input = Some (Continue w') ->
  Limit w' = Limit w /\ seriesBounded (Limit w') (Obs w').
Proof.
  intros Hl Hb. unfold tick.
  destruct (isInBadState dead running); [discriminate |].
  destruct (negb (started w)).
  - destruct (startRoutine _ _ _ _) as [w1 |] eqn:Hs; [| discriminate].
    apply startRoutine_markStarted in Hs. subst w1. simpl.
    destruct (dispatch _ input) as [w2 |] eqn:Hd; [| discriminate].
    simpl. intros [= <-].
    destruct (markStarted_bounded (Limit w) (setLowest w (MemoryUsage input)) Hb)
      as (Hb1 & HL1 & _).
    unfold dispatch in Hd.
    apply dispatchOn_bounded in Hd; [| rewrite HL1; exact Hl | rewrite HL1; exact Hb1].
    destruct Hd as [HL2 Hb2]. split; [rewrite HL2, HL1; reflexivity | exact Hb2].
  - destruct (isFinished w); [discriminate |].
    destruct (dispatch w input) as [w2 |] eqn:Hd; [| discriminate].
    simpl. intros [= <-]. unfold dispatch in Hd.
    exact (dispatchOn_bounded _ _ _ _ Hl Hb Hd).
Qed.

Lemma run_bounded (inputs : list Sample) (w w' : Watcher) :
  0 < Limit w -> seriesBounded (Limit w) (Obs w) ->
  run w inputs = Some (Continue w') ->
  Limit w' = Limit w /\ seriesBounded (Limit w') (Obs w').
Proof.
  revert w.
  induction inputs as [| input rest IH]; intros w Hl Hb Hr.
  - injection Hr as <-. split; [reflexivity | exact Hb].
  - cbn [run] in Hr.
    destruct (tick w false true input) as [[w1 | |] |] eqn:Ht; try discriminate.
    simpl in Hr.
    destruct (tick_bounded _ _ _ _ _ Hl Hb Ht) as [HL1 Hb1].
    destruct (IH w1 ltac:(lia) Hb1 Hr) as [HL' Hb'].
    split; [congruence | exact Hb'].
Qed.

(** X18. The watcher keeps its memory bounded: started on the empty
    series of [NewObservor] with a positive limit, after any number of ticks
    every one of its thirteen series holds at most [Limit] entries. *)
Theorem Watch_series_bounded (size limit : Z) (config : list string)
    (memory : Z * Z * Z) (cpu : Z * Z) (derived : MemoryAR * CpuAR)
    (obs : Observor) (inputs : list Sample) (w' : Watcher) :
  0 < limit ->
  NewObservor size = Some obs ->
  run (watchStart obs limit config memory cpu derived) inputs
    = Some (Continue w') ->
  Limit w' = limit /\ seriesBounded limit (Obs w').
Proof.
  intros Hl Hnew Hr.
  assert (Hempty : obs = emptyObservor).
  { unfold NewObservor in Hnew. destruct (size <? 0); congruence. }
  destruct (watchStart_frame obs limit config memory cpu derived)
    as (Hobs & Hlimit & _).
  apply run_bounded in Hr.
  - rewrite Hlimit in Hr. destruct Hr as [HL Hb]. rewrite HL in Hb. split; assumption.
  - rewrite Hlimit. exact Hl.
  - rewrite Hlimit, Hobs, Hempty. unfold seriesBounded, ramBounded, cpuBounded. simpl.
    repeat split; lia.
Qed.

Lemma Watch_series_bounded_witness :
  match
    run (watchStart emptyObservor 2 [catMemory; catCPU] (10000, 20000, 30) (60, 70)
           noDerived)
      [ {| MemoryUsage := 50000; TotalUsage := 100; SystemUsage := 1000; OnlineCPUs := 2 |};
        {| MemoryUsage := 50400; TotalUsage := 250; SystemUsage := 2000; OnlineCPUs := 2 |};
        {| MemoryUsage := 50200; TotalUsage := 380; SystemUsage := 3000; OnlineCPUs := 2 |};
        {| MemoryUsage := 50600; TotalUsage := 500; SystemUsage := 4000; OnlineCPUs := 2 |};
        {| MemoryUsage := 50300; TotalUsage := 640; SystemUsage := 5000; OnlineCPUs := 2 |} ]
  with
  | Some (Continue w') => Limit w' = 2 /\ seriesBounded 2 (Obs w')
  | _ => False
  end.
Proof.
  destruct (run _ _) as [[w' | |] |] eqn:Hr.
  - refine (Watch_series_bounded 2 2 [catMemory; catCPU] (10000, 20000, 30) (60, 70)
              noDerived emptyObservor _ w' _ _ Hr); [lia | reflexivity].
  - vm_compute in Hr. discriminate.
  - vm_compute in Hr. discriminate.
  - vm_compute in Hr. discriminate.
Defined.

(** ** The length of a window *)

Lemma memoryBranch_inside
    (limit mUsage : Z) (v : MemoryVars) (ts : TimeSerieRAM) (ar : MemoryAR) :
  0 < limit -> w_memoryTurn v < limit ->
  exists v' ts',
    memoryBranch limit mUsage v ts ar = Some (v', ts', ar) /\
    (w_lowest v', w_highest v') = getExtremeValues mUsage (w_lowest v) (w_highest v) /\
    w_memoryTurn v' = GoInt.add (w_memoryTurn v) 1 /\
    ram_highest ts' = ram_highest ts /\ ram_lowest ts' = ram_lowest ts /\
    ram_amplitude ts' = ram_amplitude ts /\
    predicted_min ts' = predicted_min ts /\ predicted_max ts' = predicted_max ts /\
    predicted_threshold ts' = predicted_threshold ts /\
    MemoryPrediction ts' = MemoryPrediction ts.
Proof.
  intros Hl Hturn. unfold memoryBranch.
  destruct (processMemoryStats mUsage (w_min v) (w_max v) (w_threshold v)) as [min max].
  destruct (getExtremeValues mUsage (w_lowest v) (w_highest v)) as [lowest highest].
  unfold fifoUint. rewrite !fifo_step by exact Hl. simpl.
  destruct (Z.geb_spec (w_memoryTurn v) limit); [lia |].
  eexists _, _. repeat split.
Qed.

(** X19. A window of the memory branch is [Limit + 1] ticks long: from a
    window counter of 0, the first [Limit] ticks (or fewer) only track the
    extremes of their samples, as [getExtremeValues] folds them, and count
    the ticks; no window statistic nor predicted value is pushed and the
    prediction flag does not change. *)
Theorem memoryBranches_inside_window
    (limit : Z) (samples : list Z) (v : MemoryVars) (ts : TimeSerieRAM) (ar : MemoryAR) :
  0 <= w_memoryTurn v ->
  w_memoryTurn v + Z.of_nat (length samples) <= limit ->
  limit <= GoInt.maxInt ->
  exists v' ts',
    memoryBranches limit samples v ts ar = Some (v', ts', ar) /\
    w_memoryTurn v' = w_memoryTurn v + Z.of_nat (length samples) /\
    (w_lowest v', w_highest v') = trackExtremes (w_lowest v) (w_highest v) samples /\
    ram_highest ts' = ram_highest ts /\ ram_lowest ts' = ram_lowest ts /\
    ram_amplitude ts' = ram_amplitude ts /\
    predicted_min ts' = predicted_min ts /\ predicted_max ts' = predicted_max ts /\
    predicted_threshold ts' = predicted_threshold ts /\
    MemoryPrediction ts' = MemoryPrediction ts.
Proof.
  revert v ts.
  induction samples as [| mUsage rest IH]; intros v ts Hturn Hlen Hmax.
  - exists v, ts. simpl. repeat split. lia.
  - cbn [length] in Hlen. cbn [memoryBranches].
    destruct (memoryBranch_inside limit mUsage v ts ar ltac:(lia) ltac:(lia))
      as (v1 & ts1 & -> & Hext & Hturn1 & E1 & E2 & E3 & E4 & E5 & E6 & E7).
    simpl.
    assert (Hturn1' : w_memoryTurn v1 = w_memoryTurn v + 1).
    { rewrite Hturn1. unfold GoInt.add. apply wrap_id.
      unfold GoInt.in_int, GoInt.minInt, GoInt.maxInt, GoInt.two63 in *. lia. }
    destruct (IH v1 ts1 ltac:(lia) ltac:(lia) Hmax)
      as (v' & ts' & Hr & Hturn' & Hext' & F1 & F2 & F3 & F4 & F5 & F6 & F7).
    exists v', ts'. split; [exact Hr |].
    split; [lia |]. split.
    { rewrite Hext'. cbn [trackExtremes]. rewrite <- Hext. reflexivity. }
    repeat split; congruence.
Qed.

Lemma memoryBranches_inside_window_witness :
  exists v' ts',
    memoryBranches 3 [40000; 30000; 35000]
      {| w_min := 55000; w_max := 60500; w_threshold := 10;
         w_lowest := 50000; w_highest := 0; w_memoryTurn := 0 |}
      (RAM emptyObservor)
      {| nmin := 0; nmax := 0; opti := 0; usage := 0 |}
    = Some (v', ts', {| nmin := 0; nmax := 0; opti := 0; usage := 0 |}) /\
    w_memoryTurn v' = 3 /\
    (w_lowest v', w_highest v') = (30000, 35000) /\
    ram_amplitude ts' = [].
Proof.
  destruct (memoryBranches_inside_window 3 [40000; 30000; 35000]
              {| w_min := 55000; w_max := 60500; w_threshold := 10;
                 w_lowest := 50000; w_highest := 0; w_memoryTurn := 0 |}
              (RAM emptyObservor)
              {| nmin := 0; nmax := 0; opti := 0; usage := 0 |})
    as (v' & ts' & Hr & Ht & He & _ & _ & Ha & _).
  - simpl. lia.
  - simpl. lia.
  - unfold GoInt.maxInt, GoInt.two63. lia.
  - exists v', ts'. repeat split; assumption.
Defined.

(** X20. With a positive limit, the tick that finds the window counter at
    the limit ends the window: when the branch returns, the lowest value of
    the window was not
    0, the window's highest, lowest and their integer quotient are the last
    entries of the three statistic series, the extremes are reset to
    (highest, lowest) = (0, usage), the counter to 0, and the prediction flag
    is the end condition on the predicted series and the mean amplitude. *)
Theorem memoryBranch_window_end
    (limit mUsage : Z) (v v' : MemoryVars) (ts ts' : TimeSerieRAM) (ar ar' : MemoryAR) :
  0 < limit -> limit <= w_memoryTurn v ->
  memoryBranch limit mUsage v ts ar = Some (v', ts', ar') ->
  let lowest := fst (getExtremeValues mUsage (w_lowest v) (w_highest v)) in
  let highest := snd (getExtremeValues mUsage (w_lowest v) (w_highest v)) in
  lowest <> 0 /\
  last (ram_highest ts') = Some highest /\
  last (ram_lowest ts') = Some lowest /\
  last (ram_amplitude ts') = Some (highest / lowest) /\
  w_lowest v' = mUsage /\ w_highest v' = 0 /\ w_memoryTurn v' = 0 /\
  MemoryPrediction ts' =
    checkMemoryEndCondition (Z.of_nat (length (predicted_min ts'))) limit
      (averrage (ram_amplitude ts')) /\
  opti ar' = w_threshold v'.
Proof.
  intros Hl Hturn. unfold memoryBranch.
  destruct (processMemoryStats mUsage (w_min v) (w_max v) (w_threshold v)) as [min max].
  destruct (getExtremeValues mUsage (w_lowest v) (w_highest v)) as [lowest highest].
  unfold fifoUint. rewrite !fifo_step by exact Hl. simpl.
  destruct (Z.geb_spec (w_memoryTurn v) limit); [| lia].
  unfold memoryWindow, fifoUint. rewrite !fifo_step by exact Hl. simpl.
  unfold windowAmplitude, GoInt.udiv.
  destruct (Z.eqb_spec lowest 0) as [-> | Hne]; [simpl; discriminate |].
  simpl. repeat (rewrite !fifo_step by exact Hl; simpl).
  bind_cases. intros [= <- <- <-]. simpl.
  rewrite !last_snoc. repeat split. exact Hne.
Qed.

Lemma memoryBranch_window_end_witness :
  exists v' ts' ar',
    memoryBranch 3 50000
      {| w_min := 55000; w_max := 60500; w_threshold := 10;
         w_lowest := 50000; w_highest := 50000; w_memoryTurn := 3 |}
      (RAM emptyObservor)
      {| nmin := 0; nmax := 0; opti := 0; usage := 0 |}
    = Some (v', ts', ar') /\
    last (ram_amplitude ts') = Some 1 /\ w_highest v' = 0.
Proof.
  eexists _, _, _. split; [vm_compute; reflexivity |].
  match goal with
  | |- last (ram_amplitude ?ts') = _ /\ w_highest ?v' = _ =>
      destruct (memoryBranch_window_end 3 50000
                  {| w_min := 55000; w_max := 60500; w_threshold := 10;
                     w_lowest := 50000; w_highest := 50000; w_memoryTurn := 3 |}
                  v' (RAM emptyObservor) ts'
                  {| nmin := 0; nmax := 0; opti := 0; usage := 0 |}
                  {| nmin := 50550; nmax := 50717; opti := 1; usage := 50000 |})
        as (_ & _ & _ & Ha & _ & Hh & _)
  end.
  - lia.
  - simpl. lia.
  - vm_compute. reflexivity.
  - split; [exact Ha | exact Hh].
Defined.

(** ** Series as slices *)

Section SliceSeries.
Context {A : Type}.
Variable zeroValue : A.
Variable growCap : nat -> nat -> nat.

Implicit Types (h : list (list A)) (s t : GoSlice.slice).

Lemma append_wf h s (v : A) :
  GoSlice.wf h s ->
  GoSlice.wf (fst (GoSlice.append zeroValue growCap h s v))
             (snd (GoSlice.append zeroValue growCap h s v)).
Proof.
  intros (Hb & Hcap & Hlen). unfold GoSlice.append.
  destruct (Nat.ltb_spec (GoSlice.len s) (GoSlice.cap s)) as [Hroom | Hfull]; simpl.
  - unfold GoSlice.wf, GoSlice.backing. simpl.
    rewrite length_insert, list_lookup_insert_eq by exact Hb. simpl.
    rewrite length_insert. unfold GoSlice.backing in Hcap. lia.
  - unfold GoSlice.wf, GoSlice.backing. simpl.
    rewrite length_app, lookup_app_r by lia. rewrite Nat.sub_diag. simpl.
    rewrite length_app. simpl. rewrite length_replicate.
    rewrite (view_length h s) by (repeat split; assumption). lia.
Qed.

Lemma append_keeps_others h s t (v : A) :
  GoSlice.wf h s -> GoSlice.wf h t -> GoSlice.base t <> GoSlice.base s ->
  GoSlice.view (fst (GoSlice.append zeroValue growCap h s v)) t = GoSlice.view h t.
Proof.
  intros (Hb & _) (Hbt & _) Hne. unfold GoSlice.append.
  destruct (Nat.ltb_spec (GoSlice.len s) (GoSlice.cap s)); simpl.
  - unfold GoSlice.view, GoSlice.backing.
    rewrite list_lookup_insert_ne by congruence. reflexivity.
  - unfold GoSlice.view. rewrite backing_alloc by exact Hbt. reflexivity.
Qed.

(** X21. On slices, [fifoUint] and [fifoFloat] do what [fifo] says of the
    contents, whether [append] writes in place or allocates: the slice they
    return is well formed and shows the contents [fifo] computes, and they
    panic exactly when [fifo] does. *)
Theorem fifo_slice_contents h s (v : A) (size : Z) :
  GoSlice.wf h s ->
  match GoSlice.fifo zeroValue growCap h s v size with
  | Some (h', s') =>
      GoSlice.wf h' s' /\ fifo (GoSlice.view h s) v size = Some (GoSlice.view h' s')
  | None => fifo (GoSlice.view h s) v size = None
  end.
Proof.
  intros Hwf.
  pose proof (fifo_view zeroValue growCap h s v size Hwf) as Hv.
  destruct (GoSlice.fifo zeroValue growCap h s v size) as [[h' s'] |] eqn:Hf.
  - simpl in Hv. split; [| symmetry; exact Hv].
    unfold GoSlice.fifo in Hf.
    destruct (size =? 0); [injection Hf as <- <-; exact Hwf |].
    destruct (GoSlice.sliceFrom s _) as [s0 |] eqn:Hs; [| discriminate].
    simpl in Hf. pose proof (sliceFrom_wf _ _ _ _ Hwf Hs) as Hwf0.
    pose proof (append_wf h s0 v Hwf0) as Hwf'.
    rewrite (surjective_pairing (GoSlice.append zeroValue growCap h s0 v)) in Hf.
    injection Hf as <- <-. exact Hwf'.
  - simpl in Hv. symmetry. exact Hv.
Qed.

(** X22. A push never changes what another slice shows: after a call of
    [fifoUint] or [fifoFloat] that returns, the slice passed to it, and every
    slice on another array, show the contents they showed before. *)
Theorem fifo_slice_separation h s t (v : A) (size : Z) (r : list (list A) * GoSlice.slice) :
  GoSlice.wf h s -> GoSlice.wf h t ->
  t = s \/ GoSlice.base t <> GoSlice.base s ->
  GoSlice.fifo zeroValue growCap h s v size = Some r ->
  GoSlice.view (fst r) t = GoSlice.view h t.
Proof.
  intros Hwf Hwft [-> | Hne] Hf.
  - exact (fifo_keeps_view zeroValue growCap h s v size r Hwf Hf).
  - unfold GoSlice.fifo in Hf.
    destruct (size =? 0); [injection Hf as <-; reflexivity |].
    destruct (GoSlice.sliceFrom s _) as [s0 |] eqn:Hs; [| discriminate].
    simpl in Hf. injection Hf as <-.
    pose proof (sliceFrom_wf _ _ _ _ Hwf Hs) as Hwf0.
    apply append_keeps_others; try assumption.
    unfold GoSlice.sliceFrom in Hs.
    destruct (_ <=? _)%nat; [| discriminate]. injection Hs as <-. exact Hne.
Qed.

End SliceSeries.

Lemma fifo_slice_contents_witness :
  match GoSlice.fifo 0 (fun old need => (2 * old)%nat)
          (fst (GoSlice.make 0 [] 0 2)) (snd (GoSlice.make 0 [] 0 2)) 7 2 with
  | Some (h', s') => fifo (@nil Z) 7 2 = Some (GoSlice.view h' s')
  | None => False
  end.
Proof.
  pose proof (fifo_slice_contents 0 (fun old need => (2 * old)%nat)
                (fst (GoSlice.make 0 [] 0 2)) (snd (GoSlice.make 0 [] 0 2)) 7 2
                (make_wf 0 [] 0 2 ltac:(lia))) as H.
  destruct (GoSlice.fifo _ _ _ _ _ _) as [[h' s'] |] eqn:Hf.
  - destruct H as [_ H]. exact H.
  - vm_compute in Hf. discriminate.
Defined.

Lemma fifo_slice_separation_witness :
  GoSlice.view
    (fst (GoSlice.append 0 (fun old need => (2 * old)%nat) [[0; 0]; [5; 6]]
            {| GoSlice.base := 0; GoSlice.off := 0; GoSlice.len := 0; GoSlice.cap := 2 |} 7))
    {| GoSlice.base := 1; GoSlice.off := 0; GoSlice.len := 2; GoSlice.cap := 2 |}
  = [5; 6].
Proof.
  apply (fifo_slice_separation 0 (fun old need => (2 * old)%nat) [[0; 0]; [5; 6]]
           {| GoSlice.base := 0; GoSlice.off := 0; GoSlice.len := 0; GoSlice.cap := 2 |}
           {| GoSlice.base := 1; GoSlice.off := 0; GoSlice.len := 2; GoSlice.cap := 2 |}
           7 2 _).
  - unfold GoSlice.wf. simpl. lia.
  - unfold GoSlice.wf. simpl. lia.
  - right. simpl. lia.
  - reflexivity.
Defined.

(** ** The core set *)

Lemma append_cons (c : ascii) (a b : string) : String c a +:+ b = String c (a +:+ b).
Proof. reflexivity. Qed.

Lemma append_empty_r (s : string) : s +:+ "" = s.
Proof.
  induction s as [| c s IH]; [reflexivity |].
  rewrite append_cons, IH. reflexivity.
Qed.

Lemma append_assoc (a b c : string) : (a +:+ b) +:+ c = a +:+ (b +:+ c).
Proof.
  induction a as [| x a IH]; [reflexivity |].
  rewrite !append_cons, IH. reflexivity.
Qed.

Lemma configLoop_closed (n : Z) (fuel : nat) (i : Z) (config : string) :
  0 <= i -> n <= GoInt.maxInt -> (Z.to_nat (n - i) <= fuel)%nat ->
  configLoop fuel i n config
  = config +:+ String.concat "," (Itoa <$> seqZ i (n - i)).
Proof.
  revert i config.
  induction fuel as [| fuel IH]; intros i config Hi Hn Hfuel.
  - simpl. rewrite seqZ_nil by lia. simpl. rewrite append_empty_r. reflexivity.
  - cbn [configLoop].
    destruct (Z.ltb_spec i n) as [Hlt | Hge].
    + assert (Hadd : GoInt.add i 1 = i + 1).
      { unfold GoInt.add. apply wrap_id.
        unfold GoInt.in_int, GoInt.minInt, GoInt.maxInt, GoInt.two63 in *. lia. }
      rewrite Hadd, IH by lia.
      rewrite (seqZ_cons i (n - i)) by lia.
      replace (Z.succ i) with (i + 1) by lia.
      replace (Z.pred (n - i)) with (n - (i + 1)) by lia.
      destruct (Z.ltb_spec (i + 1) n) as [Hlt' | Hge'].
      * rewrite (seqZ_cons (i + 1)) by lia.
        rewrite !fmap_cons. cbn [String.concat].
        rewrite !append_assoc. reflexivity.
      * rewrite (seqZ_nil (i + 1)) by lia.
        simpl. rewrite append_empty_r. reflexivity.
    + rewrite seqZ_nil by lia. simpl. rewrite append_empty_r. reflexivity.
Qed.

(** X23. [CPUUsageToConfig] returns two empty strings for a usage that is
    not above 0; otherwise, with [n = 1 + int(usage/100)], the core set is
    the decimal numbers [0] to [n - 1] separated by commas (no core when [n]
    is not positive) and the number is the decimal of [n]. *)
Theorem CPUUsageToConfig_cores (fUsage : float64) :
  CPUUsageToConfig fUsage =
    if SFleb fUsage GoFloat.zero then (""%string, ""%string)
    else (String.concat "," (Itoa <$> seqZ 0 (coreCount fUsage)),
          Itoa (coreCount fUsage)).
Proof.
  unfold CPUUsageToConfig.
  destruct (SFleb fUsage GoFloat.zero); [reflexivity |].
  rewrite configLoop_closed.
  - rewrite Z.sub_0_r. reflexivity.
  - lia.
  - unfold coreCount, GoInt.add.
    pose proof (wrap_range (1 + GoFloat.to_int (f64_div fUsage (f64_of_Z 100)))) as H.
    unfold GoInt.in_int in H. lia.
  - rewrite Z.sub_0_r. lia.
Qed.

(** One core per started hundred percent; an infinite usage lists no core
    and reports a negative number. *)
Example CPUUsageToConfig_values :
  CPUUsageToConfig (f64_of_Z 250) = ("0,1,2"%string, "3"%string) /\
  CPUUsageToConfig (f64_of_Z 99) = ("0"%string, "1"%string) /\
  CPUUsageToConfig (f64_of_Z 0) = (""%string, ""%string) /\
  CPUUsageToConfig PInf = (""%string, "-9223372036854775807"%string).
Proof. repeat split; vm_compute; reflexivity. Qed.

(** ** Copies of the configuration *)

Lemma copyCategory_id (category : gmap string string) : copyCategory category = category.
Proof.
  unfold copyCategory.
  apply (map_fold_weak_ind (fun r m => r = m)); [reflexivity |].
  intros i x m r _ ->. reflexivity.
Qed.

(** X24. [ConvertAutoRange] returns a configuration with the categories,
    keys and values of its argument, and nothing else. *)
Theorem ConvertAutoRange_copies (autoRange : gmap string (gmap string string)) :
  ConvertAutoRange autoRange = autoRange /\
  forall key subKey,
    (ConvertAutoRange autoRange !! key) ≫= (fun category => category !! subKey)
    = (autoRange !! key) ≫= (fun category => category !! subKey).
Proof.
  assert (H : ConvertAutoRange autoRange = autoRange).
  { unfold ConvertAutoRange.
    apply (map_fold_weak_ind (fun r m => r = m)); [reflexivity |].
    intros i x m r _ ->. rewrite copyCategory_id. reflexivity. }
  split; [exact H |]. intros key subKey. rewrite H. reflexivity.
Qed.

(** ** The name of the service *)

Lemma prefix_underscore (c : ascii) (rest : string) :
  String.prefix "_" (String c rest) = Ascii.eqb "_" c.
Proof.
  cbn [String.prefix]. destruct (ascii_dec "_" c) as [<- | Hne].
  - destruct rest; reflexivity.
  - symmetry. apply Ascii.eqb_neq. exact Hne.
Qed.

Lemma lastIndexFrom_absent (s : string) (i found : Z) :
  hasByte "_" s = false -> lastIndexFrom "_" s i found = found.
Proof.
  revert i found. induction s as [| c rest IH]; intros i found Hs; [reflexivity |].
  cbn [lastIndexFrom]. rewrite prefix_underscore.
  cbn [hasByte] in Hs. destruct (Ascii.eqb "_" c); [discriminate |].
  apply IH. exact Hs.
Qed.

Lemma lastIndexFrom_last (pre post : string) (i found : Z) :
  hasByte "_" post = false ->
  lastIndexFrom "_" (pre +:+ String "_" post) i found = i + Z.of_nat (String.length pre).
Proof.
  intros Hpost. revert i found.
  induction pre as [| c pre IH]; intros i found.
  - change ("" +:+ String "_" post) with (String "_" post).
    cbn [lastIndexFrom]. rewrite prefix_underscore. simpl Ascii.eqb.
    rewrite lastIndexFrom_absent by exact Hpost. simpl. lia.
  - rewrite append_cons. cbn [lastIndexFrom]. rewrite IH. cbn [String.length]. lia.
Qed.

Lemma substring_prefix (pre rest : string) :
  String.substring 0 (String.length pre) (pre +:+ rest) = pre.
Proof.
  induction pre as [| c pre IH].
  - destruct rest; reflexivity.
  - rewrite append_cons. simpl. rewrite IH. reflexivity.
Qed.

Lemma length_append (a b : string) :
  String.length (a +:+ b) = (String.length a + String.length b)%nat.
Proof.
  induction a as [| c a IH]; [reflexivity |].
  rewrite append_cons. simpl. rewrite IH. reflexivity.
Qed.

(** X25. The name a new watcher gets is the service name up to its last
    underscore; for a service name without underscore the slice bound is -1
    and [ContainerStats] panics. *)
Theorem watcherServiceName_last_underscore :
  (forall serviceName,
     hasByte "_" serviceName = false -> watcherServiceName serviceName = None) /\
  (forall pre post,
     hasByte "_" post = false ->
     watcherServiceName (pre +:+ String "_" post) = Some pre).
Proof.
  split.
  - intros serviceName Hs. unfold watcherServiceName, LastIndex.
    rewrite lastIndexFrom_absent by exact Hs. reflexivity.
  - intros pre post Hpost. unfold watcherServiceName, LastIndex.
    rewrite lastIndexFrom_last by exact Hpost. unfold sliceTo.
    rewrite length_append. cbn [String.length].
    destruct (Z.leb_spec 0 (0 + Z.of_nat (String.length pre))); [| lia].
    destruct (Z.leb_spec (0 + Z.of_nat (String.length pre))
                (Z.of_nat (String.length pre + S (String.length post)))); [| lia].
    simpl andb. cbv iota.
    rewrite Z.add_0_l, Nat2Z.id, substring_prefix. reflexivity.
Qed.

Lemma watcherServiceName_last_underscore_witness :
  watcherServiceName "web" = None /\
  watcherServiceName "my_stack_web" = Some "my_stack"%string.
Proof.
  destruct watcherServiceName_last_underscore as [H1 H2].
  split; [apply H1; reflexivity |].
  apply (H2 "my_stack"%string "web"%string). reflexivity.
Defined.

(** ** The network totals *)

Lemma uadd_swap (x a b : Z) :
  GoInt.uadd (GoInt.uadd x a) b = GoInt.uadd (GoInt.uadd x b) a.
Proof.
  unfold GoInt.uadd, GoInt.uwrap.
  rewrite !Zplus_mod_idemp_l. f_equal. lia.
Qed.

Lemma addNetwork_swap (total a b : NetworkStats) :
  addNetwork (addNetwork total a) b = addNetwork (addNetwork total b) a.
Proof.
  unfold addNetwork. simpl.
  f_equal; apply uadd_swap.
Qed.

Lemma foldl_addNetwork_Permutation (l l' : list NetworkStats) :
  Permutation l l' ->
  forall total, foldl addNetwork total l = foldl addNetwork total l'.
Proof.
  induction 1 as [| x l l' _ IH | x y l | l l' l'' _ IH1 _ IH2]; intros total; simpl.
  - reflexivity.
  - apply IH.
  - rewrite addNetwork_swap. reflexivity.
  - rewrite IH1. apply IH2.
Qed.

(** X26. The network totals sent to clients of API versions before 1.21
    do not depend on the order in which the interfaces are ranged over. *)
Theorem sumNetworks_order (networks networks' : list NetworkStats) :
  Permutation networks networks' -> sumNetworks networks = sumNetworks networks'.
Proof. intros Hp. apply foldl_addNetwork_Permutation. exact Hp. Qed.

Lemma sumNetworks_order_witness :
  sumNetworks
    [ {| RxBytes := 1; RxPackets := 2; RxErrors := 0; RxDropped := 0;
         TxBytes := 3; TxPackets := 4; TxErrors := 0; TxDropped := 0 |}; noNetwork ]
  = sumNetworks
      [ noNetwork;
        {| RxBytes := 1; RxPackets := 2; RxErrors := 0; RxDropped := 0;
           TxBytes := 3; TxPackets := 4; TxErrors := 0; TxDropped := 0 |} ].
Proof. apply sumNetworks_order. apply perm_swap. Defined.

(** ** The CPU percent of a repeated sample *)

Lemma f64_sub_same (x : float64) :
  f64_sub x x = GoFloat.zero \/ f64_sub x x = NaN.
Proof.
  destruct x as [s | s | | s m e]; simpl.
  - left. destruct s; reflexivity.
  - right. destruct s; reflexivity.
  - right. reflexivity.
  - left. unfold f64_sub, SFsub. rewrite Z.sub_diag. reflexivity.
Qed.

(** X27. A sample whose cumulative usage and system values equal the
    previous ones gives no percent: the quotient of the two zero deltas is
    not-a-number, whatever the number of CPUs. *)
Theorem cpuPercent_of_repeated_sample (input : Sample) (v : CPUVars) :
  TotalUsage input = w_oldUsage v -> SystemUsage input = w_oldSystem v ->
  cpuPercent input v = NaN.
Proof.
  intros Hu Hs. unfold cpuPercent, cpuDeltaUsage. rewrite Hu, Hs.
  destruct (f64_sub_same (f64_of_Z (w_oldUsage v))) as [-> | ->];
    destruct (f64_sub_same (f64_of_Z (w_oldSystem v))) as [-> | ->];
    reflexivity.
Qed.

Lemma cpuPercent_of_repeated_sample_witness :
  cpuPercent {| MemoryUsage := 0; TotalUsage := 100; SystemUsage := 1000; OnlineCPUs := 2 |}
             {| w_oldUsage := 100; w_oldSystem := 1000; w_cpuTurn := 1 |}
  = NaN.
Proof. apply cpuPercent_of_repeated_sample; reflexivity. Defined.

(** ** The bracket below the band *)

(** X28. When the usage is below the band, the bracket is rebuilt from the
    usage alone, and in plain arithmetic for usages up to 2^40 bytes and
    thresholds up to 1000: the new [min] is the usage plus [threshold] times
    a hundredth of it, so it is not below the usage, and the new [max] is
    not below the new [min]. *)
Theorem processMemoryStats_below_band (mUsage min max threshold : Z) :
  0 <= mUsage <= 2 ^ 40 -> 0 <= threshold <= 1000 ->
  let band := GoInt.quot (percent (GoInt.sub max min)) 100 in
  mUsage <= GoInt.mul (GoInt.add min band) threshold ->
  mUsage < GoInt.mul (GoInt.sub min band) threshold ->
  let min' := mUsage + threshold * (mUsage / 100) in
  processMemoryStats mUsage min max threshold = (min', min' + threshold * (min' / 100)) /\
  mUsage <= min' <= min' + threshold * (min' / 100).
Proof.
  intros Hu Ht band Hup Hlow min'.
  assert (Hq : 0 <= mUsage / 100 <= 2 ^ 40).
  { split; [apply Z.div_pos; lia |].
    apply Z.div_le_upper_bound; lia. }
  assert (Hp : 0 <= threshold * (mUsage / 100) <= 1000 * 2 ^ 40) by nia.
  assert (Hm : 0 <= min' <= 1001 * 2 ^ 40) by (subst min'; lia).
  assert (Hq' : 0 <= min' / 100 <= 1001 * 2 ^ 40).
  { split; [apply Z.div_pos; lia |].
    apply Z.div_le_upper_bound; lia. }
  assert (Hp' : 0 <= threshold * (min' / 100) <= 1000 * (1001 * 2 ^ 40)) by nia.
  assert (Hwrap : forall z, 0 <= z <= 2 ^ 62 -> GoInt.wrap z = z).
  { intros z Hz. apply wrap_id.
    unfold GoInt.in_int, GoInt.minInt, GoInt.maxInt, GoInt.two63. lia. }
  split; [| lia].
  unfold processMemoryStats. fold band.
  unfold GoInt.to_int. rewrite (Hwrap mUsage) by lia.
  destruct (Z.gtb_spec mUsage (GoInt.mul (GoInt.add min band) threshold)); [lia |].
  destruct (Z.ltb_spec mUsage (GoInt.mul (GoInt.sub min band) threshold)); [| lia].
  rewrite !percent_quot. unfold GoInt.quot, GoInt.mul, GoInt.add.
  rewrite (Z.quot_div_nonneg mUsage 100) by lia.
  rewrite (Hwrap (mUsage / 100)) by lia.
  rewrite (Hwrap (threshold * (mUsage / 100))) by lia.
  fold min'. rewrite (Hwrap min') by lia.
  rewrite (Z.quot_div_nonneg min' 100) by lia.
  rewrite (Hwrap (min' / 100)) by lia.
  rewrite (Hwrap (threshold * (min' / 100))) by lia.
  rewrite (Hwrap (min' + threshold * (min' / 100))) by lia.
  reflexivity.
Qed.

Lemma processMemoryStats_below_band_witness :
  processMemoryStats 50000 110000 120000 10 = (55000, 60500).
Proof.
  destruct (processMemoryStats_below_band 50000 110000 120000 10) as [H _].
  - lia.
  - lia.
  - vm_compute. discriminate.
  - vm_compute. reflexivity.
  - exact H.
Defined.

(** ** A negative capacity *)

(** X29. With a negative capacity the length test always holds: a push
    onto an empty series panics on the slice bound, and a push onto any
    other series drops its first entry, so the length stays what it was. *)
Theorem fifo_negative_size {A : Type} (size : Z) (value : A) :
  size < 0 ->
  fifo [] value size = None /\
  forall first rest, fifo (first :: rest) value size = Some (rest ++ [value]).
Proof.
  intros Hs. unfold fifo, sliceFrom.
  destruct (Z.eqb_spec size 0); [lia |].
  split.
  - destruct (Z.geb_spec (Z.of_nat (length (@nil A))) size) as [_ | Hlt]; [reflexivity |].
    simpl in Hlt. lia.
  - intros first rest.
    destruct (Z.geb_spec (Z.of_nat (length (first :: rest))) size) as [_ | Hlt].
    + reflexivity.
    + simpl in Hlt. lia.
Qed.

Lemma fifo_negative_size_witness :
  fifo (@nil Z) 7 (-1) = None /\ fifo [1; 2] 7 (-1) = Some [2; 7].
Proof.
  destruct (@fifo_negative_size Z (-1) 7 ltac:(lia)) as [H1 H2].
  split; [exact H1 | apply H2].
Defined.
